(** * Flappy_Bird_AI: the simulation core of [flappy_bird_ai.py]

    A shallow embedding of the game logic (class [Bird], class [Pipe],
    class [Base] and the episode loop of [eval_genomes]) together with the
    properties of the specification that were checked against it.

    Modelling conventions.
    - Python [int] is [Z]; list positions are [nat].
    - The positions and velocities, Python [float]s, are modelled by
      exact rationals [Q]: every comparison and arithmetic step of the
      source is kept.  The physics only ever produces multiples of one
      half, which binary floating point represents exactly.
    - The fitness of a genome is a binary64 [float], as in the source:
      [+= 0.1], [-= 1] and [+= 5] are the additions and the subtraction
      of IEEE 754 with their rounding, and [0.1] is the double nearest
      to one tenth.
    - Attributes of objects that are shared between lists (the genomes,
      whose [fitness] the caller reads after the episode) live in a store
      indexed by object reference.
    - Sprites are image files that are not part of the source text: their
      sizes and pixel masks are parameters (class [Assets]). *)

From Stdlib Require Import PrimFloat.
From Stdlib Require Import ZArith QArith Qabs Qround Qminmax Lqa Lia.
From stdpp Require Import base option list gmap.

Local Open Scope Z_scope.

(** Decimal literals of floats are read as Python reads them: as the
    nearest double. *)
#[local] Set Warnings "-inexact-float".

(** ** Comparisons on rationals as the source writes them *)

Definition Qlt_bool (a b : Q) : bool := negb (Qle_bool b a).

(** ** class Bird *)

Module Bird.

Definition MAX_ROTATION : Z := 25.
Definition ROTATION_VELOCITY : Z := 20.
Definition ANIMATION_TIME : Z := 5.

(** [img] is the position in [IMGS] of the sprite currently shown. *)
Record t := mk {
  x : Z;
  y : Q;
  tilt : Z;
  tick_count : Z;
  velocity : Q;
  height : Q;
  img_count : Z;
  img : nat
}.

(** [Bird.__init__] *)
Definition init (x0 y0 : Z) : t :=
  {| x := x0; y := inject_Z y0; tilt := 0; tick_count := 0; velocity := 0;
     height := inject_Z y0; img_count := 0; img := 0%nat |}.

(** [Bird.jump] *)
Definition jump (b : t) : t :=
  {| x := x b; y := y b; tilt := tilt b;
     tick_count := 0;
     velocity := - (21 # 2);
     height := y b;
     img_count := img_count b; img := img b |}.

(** The local [d] of [Bird.move] (lines 78-84), as a function of the
    velocity and of the tick count after its increment. *)
Definition displacement (velocity : Q) (tick_count : Z) : Q :=
  let d := (velocity * inject_Z tick_count
            + (3 # 2) * inject_Z (tick_count ^ 2))%Q in
  let d := if Qle_bool 16 d then 16%Q else d in
  let d := if Qlt_bool d 0 then (d - 2)%Q else d in
  d.

(** [Bird.move] *)
Definition move (b : t) : t :=
  let tick_count' := tick_count b + 1 in
  let d := displacement (velocity b) tick_count' in
  let y' := (y b + d)%Q in
  let tilt' :=
    if Qlt_bool d 0 || Qlt_bool y' (height b + 50)
    then (if tilt b <? MAX_ROTATION then MAX_ROTATION else tilt b)
    else (if tilt b >? -90 then tilt b - ROTATION_VELOCITY else tilt b) in
  {| x := x b; y := y'; tilt := tilt';
     tick_count := tick_count';
     velocity := velocity b; height := height b;
     img_count := img_count b; img := img b |}.

(** The state change of [Bird.draw]: the wing animation.  The blit itself
    has no effect on the simulation. *)
Definition draw (b : t) : t :=
  let c := img_count b + 1 in
  let '(i, c) :=
    if c <? ANIMATION_TIME then (0%nat, c)
    else if c <? ANIMATION_TIME * 2 then (1%nat, c)
    else if c <? ANIMATION_TIME * 3 then (2%nat, c)
    else if c <? ANIMATION_TIME * 4 then (1%nat, c)
    else if c <? ANIMATION_TIME * 4 + 1 then (0%nat, 0)
    else (img b, c) in
  let '(i, c) :=
    if tilt b <=? -80 then (1%nat, ANIMATION_TIME * 2) else (i, c) in
  {| x := x b; y := y b; tilt := tilt b; tick_count := tick_count b;
     velocity := velocity b; height := height b;
     img_count := c; img := i |}.

(** A call made on an agent by the harness. *)
Inductive call := Jump | Move.

Definition apply_call (b : t) (c : call) : t :=
  match c with Jump => jump b | Move => move b end.

Definition run_calls (b : t) (cs : list call) : t := foldl apply_call b cs.

(** The displacement formula in the words of the specification:
    [velocity * t + 1.5 * t^2], clamped above at 16, and decreased by 2
    when negative. *)
Definition spec_displacement (v : Q) (t : Z) : Q :=
  let raw := (v * inject_Z t + (3 # 2) * (inject_Z t * inject_Z t))%Q in
  let clamped := Qmin raw 16 in
  if Qlt_le_dec clamped 0 then (clamped - 2)%Q else clamped.

(** Where the instantaneous velocity [v + 3 t] of the formula vanishes. *)
Definition zero_crossing (v : Q) : Q := (- v / 3)%Q.

End Bird.

(** ** Sprites

    The images are loaded from files at import time.  What the game logic
    needs from them is their size and, for the collision test, what
    [pygame.mask.from_surface] and [Mask.overlap] return. *)

Class Assets := {
  Mask : Type;
  (** [pygame.mask.from_surface(BIRD_IMGS[k])] *)
  bird_mask : nat -> Mask;
  (** [BIRD_IMGS[k].get_height()] *)
  bird_img_height : nat -> Z;
  (** masks of the flipped and of the plain [PIPE_IMG] *)
  pipe_top_mask : Mask;
  pipe_bottom_mask : Mask;
  pipe_img_width : Z;
  pipe_img_height : Z;
  (** [BASE_IMG.get_width()] *)
  base_img_width : Z;
  (** [m.overlap(other, offset)]: a point of intersection, or [None] *)
  overlap : Mask -> Mask -> Z * Z -> option (Z * Z)
}.

(** Python's [round] on a float: to the nearest integer, ties to even. *)
Definition py_round (q : Q) : Z :=
  let f := Qfloor q in
  let r := (q - inject_Z f)%Q in
  if Qlt_bool r (1 # 2) then f
  else if Qlt_bool (1 # 2) r then f + 1
  else if Z.even f then f else f + 1.

(** ** class Pipe *)

Module Pipe.

Definition GAP : Z := 200.
Definition VELOCITY : Z := 5.

Record t := mk {
  x : Z;
  height : Z;
  top : Z;
  bottom : Z;
  passed : bool
}.

Section with_assets.
Context `{Assets}.

(** [Pipe.set_height]; [h] is the value drawn by
    [random.randrange(50, 450)]. *)
Definition set_height (h : Z) (p : t) : t :=
  {| x := x p; height := h; top := h - pipe_img_height; bottom := h + GAP;
     passed := passed p |}.

(** [Pipe.__init__] *)
Definition init (x0 : Z) (h : Z) : t :=
  set_height h {| x := x0; height := 0; top := 0; bottom := 0;
                  passed := false |}.

(** [Pipe.move] *)
Definition move (p : t) : t :=
  {| x := x p - VELOCITY; height := height p; top := top p;
     bottom := bottom p; passed := passed p |}.

Definition set_passed (v : bool) (p : t) : t :=
  {| x := x p; height := height p; top := top p; bottom := bottom p;
     passed := v |}.

(** [Pipe.collide] *)
Definition collide (p : t) (bird : Bird.t) : bool :=
  let bird_mask := bird_mask (Bird.img bird) in
  let top_mask := pipe_top_mask in
  let bottom_mask := pipe_bottom_mask in
  let top_offset := (x p - Bird.x bird, top p - py_round (Bird.y bird)) in
  let bottom_offset :=
    (x p - Bird.x bird, bottom p - py_round (Bird.y bird)) in
  let b_point := overlap bird_mask bottom_mask bottom_offset in
  let t_point := overlap bird_mask top_mask top_offset in
  if bool_decide (is_Some t_point) || bool_decide (is_Some b_point)
  then true else false.

End with_assets.
End Pipe.

(** ** class Base *)

Module Base.

Definition VELOCITY : Z := 5.

Record t := mk { y : Z; x1 : Z; x2 : Z }.

Section with_assets.
Context `{Assets}.

Definition WIDTH : Z := base_img_width.

(** [Base.__init__] *)
Definition init (y0 : Z) : t := {| y := y0; x1 := 0; x2 := WIDTH |}.

(** [Base.move] *)
Definition move (b : t) : t :=
  let x1' := x1 b - VELOCITY in
  let x2' := x2 b - VELOCITY in
  let x1' := if x1' + WIDTH <? 0 then x2' + WIDTH else x1' in
  let x2' := if x2' + WIDTH <? 0 then x1' + WIDTH else x2' in
  {| y := y b; x1 := x1'; x2 := x2' |}.

(** A horizontal position lies on one of the two tiles. *)
Definition covers (b : t) (p : Z) : Prop :=
  (x1 b <= p <= x1 b + WIDTH) \/ (x2 b <= p <= x2 b + WIDTH).

(** The two tiles touch: one starts where the other ends. *)
Definition adjacent (b : t) : Prop :=
  x2 b = x1 b + WIDTH \/ x1 b = x2 b + WIDTH.

End with_assets.
End Base.

Definition WIN_WIDTH : Z := 500.
Definition WIN_HEIGHT : Z := 800.

(** ** Exceptions and loops *)

Inductive exn := IndexError | AttributeError | SystemExit.

(** The result of running a piece of the program: it finishes with a
    value, raises, or is still running when the fuel of the model is
    used up. *)
Inductive res (A : Type) : Type :=
  | Ok (a : A)
  | Raise (e : exn)
  | OutOfFuel.
Arguments Ok {A} a.
Arguments Raise {A} e.
Arguments OutOfFuel {A}.

Global Instance res_ret : MRet res := fun A a => Ok a.
Global Instance res_bind : MBind res := fun A B f m =>
  match m with
  | Ok a => f a
  | Raise e => Raise e
  | OutOfFuel => OutOfFuel
  end.

(** [l[i]] *)
Definition index {A} (l : list A) (i : nat) : res A :=
  match l !! i with
  | Some a => Ok a
  | None => Raise IndexError
  end.

(** [l.pop(i)] for a position [i >= 0] *)
Definition pop {A} (l : list A) (i : nat) : res (list A) :=
  match l !! i with
  | Some _ => Ok (delete i l)
  | None => Raise IndexError
  end.

(** [for i, a in enumerate(xs): body] where the body may change [xs]
    itself.  Python's list iterator keeps a position: each round it
    yields the element now at that position, or stops when the position
    is past the current end of the list; [enumerate] counts the rounds, so
    its counter is that position. *)
Section for_in.
Context {St A : Type} (xs : St -> list A) (body : nat -> A -> St -> res St).

Fixpoint for_in_from (fuel : nat) (i : nat) (s : St) : res St :=
  match fuel with
  | O => OutOfFuel
  | S fuel' =>
      match xs s !! i with
      | None => Ok s
      | Some a => s' ← body i a s; for_in_from fuel' (S i) s'
      end
  end.

(** The elements the iterator yields, in order. *)
Fixpoint visits (fuel : nat) (i : nat) (s : St) : list A :=
  match fuel with
  | O => []
  | S fuel' =>
      match xs s !! i with
      | None => []
      | Some a =>
          a :: match body i a s with
               | Ok s' => visits fuel' (S i) s'
               | _ => []
               end
      end
  end.

(** None of the loops of the program makes its list longer, so one round
    per element and one for the final test are enough. *)
Definition for_in (s : St) : res St :=
  for_in_from (S (length (xs s))) 0 s.

End for_in.

(** ** The episode: [eval_genomes] *)

(** A genome object is known by its reference; its [fitness] attribute,
    a binary64 float, lives in the store of the world. *)
Abbreviation ref := nat (only parsing).

(** The tuple given to [net.activate], and what is read of the answer:
    [output[0]]. *)
Definition Observation : Type := Q * Q * Q.
Definition Net : Type := Observation -> Q.

Record World := mkWorld {
  birds : list Bird.t;
  nets : list Net;
  ge : list ref;
  fitness : gmap ref float;
  pipes : list Pipe.t;
  base : Base.t;
  score : Z
}.

Definition set_birds (v : list Bird.t) (w : World) : World :=
  mkWorld v (nets w) (ge w) (fitness w) (pipes w) (base w) (score w).
Definition set_nets (v : list Net) (w : World) : World :=
  mkWorld (birds w) v (ge w) (fitness w) (pipes w) (base w) (score w).
Definition set_ge (v : list ref) (w : World) : World :=
  mkWorld (birds w) (nets w) v (fitness w) (pipes w) (base w) (score w).
Definition set_fitness (v : gmap ref float) (w : World) : World :=
  mkWorld (birds w) (nets w) (ge w) v (pipes w) (base w) (score w).
Definition set_pipes (v : list Pipe.t) (w : World) : World :=
  mkWorld (birds w) (nets w) (ge w) (fitness w) v (base w) (score w).
Definition set_base (v : Base.t) (w : World) : World :=
  mkWorld (birds w) (nets w) (ge w) (fitness w) (pipes w) v (score w).
Definition set_score (v : Z) (w : World) : World :=
  mkWorld (birds w) (nets w) (ge w) (fitness w) (pipes w) (base w) v.

(** [g.fitness] read through a reference *)
Definition get_fitness (w : World) (g : ref) : res float :=
  match fitness w !! g with
  | Some f => Ok f
  | None => Raise AttributeError
  end.

(** An augmented assignment to [ge[x].fitness]: the attribute is read,
    [op] is computed on it in binary64, and the result is written back. *)
Definition aug_fitness (op : float -> float) (x : nat) (w : World)
  : res World :=
  g ← index (ge w) x;
  f ← get_fitness w g;
  Ok (set_fitness (<[g := op f]> (fitness w)) w).

(** [ge[x].fitness += delta] *)
Definition add_fitness (x : nat) (delta : float) (w : World) : res World :=
  aug_fitness (fun f => (f + delta)%float) x w.

(** [ge[x].fitness -= delta] *)
Definition sub_fitness (x : nat) (delta : float) (w : World) : res World :=
  aug_fitness (fun f => (f - delta)%float) x w.

(** [birds.pop(x); nets.pop(x); ge.pop(x)] *)
Definition pop_agent (x : nat) (w : World) : res World :=
  bs ← pop (birds w) x;
  ns ← pop (nets w) x;
  gs ← pop (ge w) x;
  Ok (set_ge gs (set_nets ns (set_birds bs w))).

Inductive event := QUIT | OtherEvent.

Definition is_quit (e : event) : bool :=
  match e with QUIT => true | OtherEvent => false end.

(** What one round of the [while] loop takes from outside: the pending
    window events, and the value [random.randrange(50, 450)] returns
    should a pipe be created in this round. *)
Record TickInput := mkInput {
  events : list event;
  drawn_height : Z
}.

(** How one round of the [while] loop ends. *)
Inductive flow := Continue (w : World) | Break (w : World).

Section harness.
Context `{Assets}.

(** The tuple of line 325. *)
Definition observation (bird : Bird.t) (pipe : Pipe.t) : Observation :=
  (Bird.y bird,
   Qabs (Bird.y bird - inject_Z (Pipe.height pipe)),
   Qabs (Bird.y bird - inject_Z (Pipe.bottom pipe))).

(** Lines 312-315, reached with a non empty population. *)
Definition choose_pipe_ind (w : World) : nat :=
  match birds w, pipes w with
  | b0 :: _, p0 :: _ :: _ =>
      if Pipe.x p0 + pipe_img_width <? Bird.x b0 then 1%nat else 0%nat
  | _, _ => 0%nat
  end.

(** Body of the loop of lines 320-328. *)
Definition think_body (pipe_ind : nat) (x : nat) (bird : Bird.t) (w : World)
  : res World :=
  let bird := Bird.move bird in
  w ← add_fitness x 0.1%float w;
  net ← index (nets w) x;
  pipe ← index (pipes w) pipe_ind;
  let output := net (observation bird pipe) in
  let bird := if Qlt_bool (1 # 2) output then Bird.jump bird else bird in
  Ok (set_birds (<[x := bird]> (birds w)) w).

Definition think (pipe_ind : nat) (w : World) : res World :=
  for_in birds (think_body pipe_ind) w.

(** State of the inner loop: the world, the pipe the outer loop is at
    (its [passed] flag is set in place), and [add_pipe]. *)
Definition ScanState : Type := World * Pipe.t * bool.

(** Body of the inner loop, lines 335-347. *)
Definition scan_body (x : nat) (bird : Bird.t) (s : ScanState)
  : res ScanState :=
  let '(w, pipe, add_pipe) := s in
  w ← (if Pipe.collide pipe bird
       then w ← sub_fitness x 1%float w; pop_agent x w
       else Ok w);
  if negb (Pipe.passed pipe) && (Pipe.x pipe <? Bird.x bird)
  then Ok (w, Pipe.set_passed true pipe, true)
  else Ok (w, pipe, add_pipe).

Definition scan_birds (s : ScanState) : res ScanState :=
  for_in (fun s : ScanState => birds s.1.1) scan_body s.

(** Body of the outer loop, lines 333-353, on the world, [add_pipe] and
    [rem].  [rem] keeps the positions in [pipes] of the objects appended
    to it: [pipes] does not change shape until the new pipe is appended
    at its end, and [pipes.remove(r)] compares by identity.  The pipe,
    changed in place by the source, is written back at its position. *)
Definition pipe_body (k : nat) (pipe : Pipe.t)
  (s : World * bool * list nat) : res (World * bool * list nat) :=
  let '(w, add_pipe, rem) := s in
  '(w, pipe, add_pipe) ← scan_birds (w, pipe, add_pipe);
  let rem := if Pipe.x pipe + pipe_img_width <? 0 then rem ++ [k] else rem in
  let pipe := Pipe.move pipe in
  Ok (set_pipes (<[k := pipe]> (pipes w)) w, add_pipe, rem).

Definition scan_pipes (w : World) : res (World * bool * list nat) :=
  for_in (fun s : World * bool * list nat => pipes s.1.1) pipe_body
         (w, false, []).

(** Lines 355-360, under [if add_pipe]. *)
Definition award_body (_ : nat) (g : ref) (w : World) : res World :=
  f ← get_fitness w g;
  Ok (set_fitness (<[g := (f + 5)%float]> (fitness w)) w).

Definition award (h : Z) (w : World) : res World :=
  let w := set_score (score w + 1) w in
  w ← for_in ge award_body w;
  Ok (set_pipes (pipes w ++ [Pipe.init 600 h]) w).

(** Lines 362-363: the pipes recorded in [rem] leave the list. *)
Fixpoint remove_at (k : nat) (rem : list nat) (ps : list Pipe.t)
  : list Pipe.t :=
  match ps with
  | [] => []
  | p :: ps' =>
      if bool_decide (k ∈ rem) then remove_at (S k) rem ps'
      else p :: remove_at (S k) rem ps'
  end.

Definition prune (rem : list nat) (w : World) : World :=
  set_pipes (remove_at 0 rem (pipes w)) w.

(** Body of the loop of lines 365-370. *)
Definition oob_body (x : nat) (bird : Bird.t) (w : World) : res World :=
  if Qlt_bool 730 (Bird.y bird + inject_Z (bird_img_height (Bird.img bird)))
     || Qlt_bool (Bird.y bird) 0
  then pop_agent x w
  else Ok w.

Definition oob_scan (w : World) : res World := for_in birds oob_body w.

(** What [draw_window] changes: the wing animation of each bird. *)
Definition draw_window (w : World) : World :=
  set_birds (Bird.draw <$> birds w) w.

(** Lines 331-375 of a round, after the controllers were asked. *)
Definition tick_back (h : Z) (s : World * bool * list nat) : res World :=
  let '(w, add_pipe, rem) := s in
  w ← (if add_pipe then award h w else Ok w);
  let w := prune rem w in
  w ← oob_scan w;
  let w := set_base (Base.move (base w)) w in
  Ok (draw_window w).

(** Lines 311-353 of a round, for a non empty population. *)
Definition tick_front (w : World) : res (World * bool * list nat) :=
  let pipe_ind := choose_pipe_ind w in
  w ← think pipe_ind w;
  scan_pipes w.

(** One round of [while run], lines 304-375. *)
Definition tick (inp : TickInput) (w : World) : res flow :=
  if existsb is_quit (events inp) then Raise SystemExit
  else match birds w with
       | [] => Ok (Break w)
       | _ :: _ =>
           s ← tick_front w;
           w ← tick_back (drawn_height inp) s;
           Ok (Continue w)
       end.

(** The [while] loop; the inputs of the rounds are its fuel. *)
Fixpoint main_loop (inputs : list TickInput) (w : World) : res World :=
  match inputs with
  | [] => OutOfFuel
  | inp :: inputs' =>
      r ← tick inp w;
      match r with
      | Break w' => Ok w'
      | Continue w' => main_loop inputs' w'
      end
  end.

(** Lines 283-300.  [create g] is the network
    [neat.nn.FeedForwardNetwork.create(g, config)]; [store] holds the
    fitness attributes the genomes come with.  The [0] of line 292 is
    an [int]; the additions that follow turn it into the float of the
    same value. *)
Definition setup_body (create : ref -> Net) (w : World) (entry : Z * ref)
  : World :=
  let '(_, g) := entry in
  let w := set_nets (nets w ++ [create g]) w in
  let w := set_birds (birds w ++ [Bird.init 230 350]) w in
  let w := set_fitness (<[g := 0%float]> (fitness w)) w in
  set_ge (ge w ++ [g]) w.

Definition setup (create : ref -> Net) (genomes : list (Z * ref))
  (store : gmap ref float) (h0 : Z) : World :=
  let w := mkWorld [] [] [] store [] (Base.init 730) 0 in
  let w := foldl (setup_body create) w genomes in
  set_pipes [Pipe.init 600 h0] w.

(** [eval_genomes]: the final world holds the fitness of every genome,
    which is what the caller reads.  The generation counter, the window
    and the clock only serve the display. *)
Definition eval_genomes (create : ref -> Net) (genomes : list (Z * ref))
  (store : gmap ref float) (h0 : Z) (inputs : list TickInput) : res World :=
  main_loop inputs (setup create genomes store h0).

End harness.

(** ** Sprites for the worked examples

    Fully opaque rectangular sprites: two masks intersect exactly when
    their rectangles do. *)

Definition rect_overlap (m1 m2 : Z * Z) (off : Z * Z) : option (Z * Z) :=
  let '(w1, h1) := m1 in
  let '(w2, h2) := m2 in
  let '(dx, dy) := off in
  let px := Z.max 0 dx in
  let py := Z.max 0 dy in
  if (px <? Z.min w1 (dx + w2)) && (py <? Z.min h1 (dy + h2))
  then Some (px, py) else None.

Definition rect_assets : Assets :=
  {| Mask := Z * Z;
     bird_mask := fun _ => (68, 48);
     bird_img_height := fun _ => 48;
     pipe_top_mask := (104, 640);
     pipe_bottom_mask := (104, 640);
     pipe_img_width := 104;
     pipe_img_height := 640;
     base_img_width := 672;
     overlap := rect_overlap |}.

(** * The vocabulary of the properties *)

Section vocabulary.
Context `{Assets}.

(** The tilts an agent can show: 0 while it has not yet moved since its
    creation, afterwards 25 minus a multiple of 20, down to -95. *)
Definition fresh (b : Bird.t) : Prop :=
  Bird.tilt b = 0 /\ Bird.tick_count b = 0 /\
  (Bird.velocity b = 0%Q \/ Bird.velocity b = (- (21 # 2))%Q) /\
  Bird.height b = Bird.y b.

Definition tilt_step (z : Z) : Prop :=
  z = 25 \/ z = 5 \/ z = -15 \/ z = -35 \/ z = -55 \/ z = -75 \/ z = -95.

Definition tilt_inv (b : Bird.t) : Prop := fresh b \/ tilt_step (Bird.tilt b).

(** The tiles touch, the left one starts at or left of 0 and still ends
    at or right of 0. *)
Definition ground_inv (b : Base.t) : Prop :=
  (Base.x2 b = Base.x1 b + Base.WIDTH /\
   Base.x1 b <= 0 <= Base.x1 b + Base.WIDTH) \/
  (Base.x1 b = Base.x2 b + Base.WIDTH /\
   Base.x2 b <= 0 <= Base.x2 b + Base.WIDTH).

Definition agents (w : World) : list (Bird.t * Net * ref) :=
  zip (zip (birds w) (nets w)) (ge w).

Definition aligned (w : World) : Prop :=
  length (nets w) = length (birds w) /\ length (ge w) = length (birds w).

(** The lists are in step, no genome is referred to twice, and every
    genome referred to has a fitness. *)
Definition wf (w : World) : Prop :=
  aligned w /\ NoDup (ge w) /\
  forall g, g ∈ ge w -> is_Some (fitness w !! g).

(** What a scan for collisions may have done to the population of [w0]:
    agents left, the fitness of those still there and of genomes that
    never took part is as it was, and each agent that left had 1
    subtracted from its fitness, in binary64. *)
Definition scan_rel (w0 w : World) : Prop :=
  wf w /\
  agents w `sublist_of` agents w0 /\
  ge w `sublist_of` ge w0 /\
  base w = base w0 /\ score w = score w0 /\
  (forall g, g ∈ ge w -> fitness w !! g = fitness w0 !! g) /\
  (forall g, g ∉ ge w0 -> fitness w !! g = fitness w0 !! g) /\
  (forall g, g ∈ ge w0 -> g ∉ ge w ->
     exists f, fitness w0 !! g = Some f /\
               fitness w !! g = Some (f - 1)%float).

Definition popped (x : nat) (w : World) : World :=
  set_ge (delete x (ge w))
    (set_nets (delete x (nets w)) (set_birds (delete x (birds w)) w)).

(** Whether the scan of one pipe sets its flag, when all agents stand at
    the same [x0]: the population is not empty when the scan starts, the
    flag is not set yet, and the left edge of the pipe is left of [x0]. *)
Definition fires (x0 : Z) (w : World) (pipe : Pipe.t) : bool :=
  bool_decide (birds w <> []) && negb (Pipe.passed pipe)
  && (Pipe.x pipe <? x0).

Definition same_x (x0 : Z) (w : World) : Prop :=
  forall b, b ∈ birds w -> Bird.x b = x0.

(** Invariant of the inner loop started in [(w, pipe, add)]. *)
Definition scan_inv (w0 w : World) (pipe : Pipe.t) (add : bool)
  (i : nat) (s : ScanState) : Prop :=
  scan_rel w0 s.1.1 /\
  pipes s.1.1 = pipes w /\
  birds s.1.1 `sublist_of` birds w /\
  (i = 0%nat -> s = (w, pipe, add)) /\
  ((0 < i)%nat -> birds w <> []) /\
  (s.1.2 = pipe /\ s.2 = add \/
   Pipe.passed pipe = false /\ s.1.2 = Pipe.set_passed true pipe /\
   s.2 = true) /\
  (forall x0, same_x x0 w ->
     let fire := (0 <? i)%nat && negb (Pipe.passed pipe)
                 && (Pipe.x pipe <? x0) in
     s.1.2 = (if fire then Pipe.set_passed true pipe else pipe) /\
     s.2 = add || fire).

(** After [i] rounds of such a loop over the genomes [gs]: the first [i]
    of them have gained [delta], nothing else has changed. *)
Definition bumped (delta : float) (i : nat) (gs : list ref)
  (fit0 fit : gmap ref float) : Prop :=
  (forall x g, gs !! x = Some g ->
     fit !! g
     = (fun f => if (x <? i)%nat then (f + delta)%float else f)
       <$> fit0 !! g) /\
  (forall g, g ∉ gs -> fit !! g = fit0 !! g).

(** What lines 321-328 make of one agent. *)
Definition controlled (pipe : Pipe.t) (net : Net) (b : Bird.t) : Bird.t :=
  let b' := Bird.move b in
  if Qlt_bool (1 # 2) (net (observation b' pipe)) then Bird.jump b' else b'.

Definition think_inv (pipe : Pipe.t) (w : World) (i : nat) (s : World)
  : Prop :=
  wf s /\ nets s = nets w /\ ge s = ge w /\ pipes s = pipes w /\
  base s = base w /\ score s = score w /\
  length (birds s) = length (birds w) /\
  (forall x b net, birds w !! x = Some b -> nets w !! x = Some net ->
     birds s !! x
     = Some (if (x <? i)%nat then controlled pipe net b else b)) /\
  bumped 0.1%float i (ge w) (fitness w) (fitness s).

(** The test of line 367. *)
Definition out_of_bounds (bird : Bird.t) : bool :=
  Qlt_bool 730 (Bird.y bird + inject_Z (bird_img_height (Bird.img bird)))
  || Qlt_bool (Bird.y bird) 0.

(** What the loop of lines 365-370 may have done to the population of
    [w]: nothing but taking agents out, all of them out of bounds. *)
Definition oob_rel (w s : World) : Prop :=
  wf s /\ fitness s = fitness w /\ pipes s = pipes w /\
  base s = base w /\ score s = score w /\
  agents s `sublist_of` agents w /\ ge s `sublist_of` ge w /\
  (forall a, a ∈ agents w -> out_of_bounds a.1.1 = false -> a ∈ agents s).

(** Every genome that had a fitness in [w] still has one in [w']. *)
Definition keeps_keys (w w' : World) : Prop :=
  forall g, is_Some (fitness w !! g) -> is_Some (fitness w' !! g).

End vocabulary.

(** ** Runs of several rounds; worlds and controllers for the worked
    examples *)

Section example_runs.
Context `{Assets}.

(** The world after the given rounds, or at the break if it comes first. *)
Fixpoint rounds (inputs : list TickInput) (w : World)
  : res World :=
  match inputs with
  | [] => Ok w
  | inp :: inputs' =>
      r ← tick inp w;
      match r with
      | Continue w' => rounds inputs' w'
      | Break w' => Ok w'
      end
  end.

(** The world at the start of the collision scan of the round that
    follows the given ones. *)
Definition at_scan (inputs : list TickInput) (w : World)
  : res World :=
  w' ← rounds inputs w; think (choose_pipe_ind w') w'.

End example_runs.

(** A controller that never jumps, and one that jumps when the agent is
    below 400. *)
Definition never_jump : Net := fun _ => 0%Q.
Definition hover : Net :=
  fun o => if Qlt_bool 400 o.1.1 then 1%Q else 0%Q.

(** A round without window events in which 50 is drawn for a new pipe. *)
Definition calm : TickInput := mkInput [] 50.

(** Two genomes with the same controller. *)
Definition twins (net : Net) : World :=
  setup (H := rect_assets) (fun _ => net) [(1, 0%nat); (2, 1%nat)] ∅ 50.

(** Three agents at heights 400, 410 and 420, all inside the lower half
    of a pipe whose left edge is at [px]. *)
Definition crowd (px : Z) : World :=
  mkWorld [Bird.init 230 400; Bird.init 230 410; Bird.init 230 420]
          [hover; hover; hover] [0; 1; 2]%nat
          (<[0%nat := 0%float]> (<[1%nat := 0%float]>
             (<[2%nat := 0%float]> ∅)))
          [Pipe.mk px 50 (50 - 640) 250 false]
          (Base.init (H := rect_assets) 730) 0.

(** Three agents below the ground line. *)
Definition sunk : World :=
  set_birds [Bird.init 230 700; Bird.init 230 710; Bird.init 230 720]
            (crowd 600).

(** What is read off a world reached in an example. *)
Definition alive (r : res World) : option (list ref) :=
  match r with Ok w => Some (ge w) | _ => None end.

Definition fitness_of (r : res World) (g : ref) : option float :=
  match r with Ok w => fitness w !! g | _ => None end.

(** * The vocabulary of the further properties *)

(** A call made on an agent during an episode: the harness moves it and
    may make it jump, the display draws it. *)
Inductive bird_op := OpJump | OpMove | OpDraw.

Definition apply_op (b : Bird.t) (o : bird_op) : Bird.t :=
  match o with
  | OpJump => Bird.jump b
  | OpMove => Bird.move b
  | OpDraw => Bird.draw b
  end.

Definition run_ops (b : Bird.t) (os : list bird_op) : Bird.t :=
  foldl apply_op b os.

(** What every agent created at [x0] satisfies whatever is called on it:
    it stays at [x0], its velocity is that of its creation or that of a
    jump, its counters stay in range. *)
Definition agent_inv (x0 : Z) (b : Bird.t) : Prop :=
  Bird.x b = x0 /\
  (Bird.velocity b = 0%Q \/ Bird.velocity b = (- (21 # 2))%Q) /\
  0 <= Bird.tick_count b /\
  0 <= Bird.img_count b <= 19 /\
  (Bird.img b <= 2)%nat.

(** The image [Bird.draw] shows at a given value of its counter when the
    agent is not diving: image 0 for 0 to 4, 1 for 5 to 9, 2 for 10 to
    14, and 1 again for 15 to 19. *)
Definition wing (c : Z) : nat :=
  if c <? 5 then 0%nat
  else if c <? 10 then 1%nat
  else if c <? 15 then 2%nat
  else 1%nat.

(** The elements at the second, fourth, sixth, ... place of a list. *)
Fixpoint odds {X : Type} (l : list X) : list X :=
  match l with
  | _ :: b :: r => b :: odds r
  | _ => []
  end.

(** After [i] rounds of a scan that removes the agent it is at in every
    round: [P] are the agents passed over so far, [Q] those the iterator
    has not reached. *)
Definition half_inv {X : Type} (A : list X) (i : nat) (l : list X) : Prop :=
  exists P Q, l = P ++ Q /\ P ++ odds Q = odds A /\
    (length P = i \/ Q = [] /\ (length P <= i)%nat).

Section further_vocabulary.
Context `{Assets}.

(** The test of line 345 for agents at [x0]. *)
Definition fire0 (x0 : Z) (p : Pipe.t) : bool :=
  negb (Pipe.passed p) && (Pipe.x p <? x0).

(** The test of line 350. *)
Definition off_screen (p : Pipe.t) : bool :=
  Pipe.x p + pipe_img_width <? 0.

(** Invariant of the loop over the pipes started in [w], after [i]
    pipes: the pipes from [i] on are as they were; each earlier pipe has
    been moved, with its flag set or not; [rem] holds the positions of
    the earlier pipes that were off the screen; and [add_pipe] is set
    only if the flag of an earlier pipe was. While agents are left, the
    flags and [add_pipe] are those [fire0] gives. *)
Definition scan_pipes_inv (x0 : Z) (w : World) (i : nat)
  (s : World * bool * list nat) : Prop :=
  scan_rel w s.1.1 /\
  length (pipes s.1.1) = length (pipes w) /\
  (forall k, (i <= k)%nat -> pipes s.1.1 !! k = pipes w !! k) /\
  (forall k p, (k < i)%nat -> pipes w !! k = Some p ->
     exists p', pipes s.1.1 !! k = Some (Pipe.move p') /\
       (p' = p \/ Pipe.passed p = false /\ p' = Pipe.set_passed true p) /\
       (same_x x0 w -> birds s.1.1 <> [] ->
        p' = if fire0 x0 p then Pipe.set_passed true p else p)) /\
  (forall r, r ∈ s.2 <->
     (r < i)%nat /\ exists p, pipes w !! r = Some p /\ off_screen p = true) /\
  (s.1.2 = true ->
     exists k p, pipes w !! k = Some p /\ Pipe.passed p = false /\
       pipes s.1.1 !! k = Some (Pipe.move (Pipe.set_passed true p))) /\
  (same_x x0 w -> birds s.1.1 <> [] ->
     s.1.2 = existsb (fire0 x0) (take i (pipes w))).

(** What holds at the top of every round of an episode: either no agent
    is left, or the last pipe has not been passed yet and its left edge
    is at 225 or further right. *)
Definition pipe_ahead (w : World) : Prop :=
  birds w = [] \/
  exists ps p, pipes w = ps ++ [p] /\ Pipe.passed p = false /\
               225 <= Pipe.x p.

Definition episode_inv (w : World) : Prop :=
  wf w /\ same_x 230 w /\ pipe_ahead w.

(** What every pipe of an episode looks like: its gap is 200 high, its
    top is the height minus the height of the image, its height is one
    of the values drawn, and it has come from [x = 600] in steps of 5. *)
Definition pipe_shaped (hs : list Z) (p : Pipe.t) : Prop :=
  Pipe.bottom p = Pipe.height p + 200 /\
  Pipe.top p = Pipe.height p - pipe_img_height /\
  Pipe.height p ∈ hs /\
  Pipe.x p <= 600 /\ (600 - Pipe.x p) mod 5 = 0.

(** Whether a pipe that has just been moved had its right edge on the
    screen when line 350 looked at it, one move earlier. *)
Definition was_on_screen (p : Pipe.t) : bool :=
  negb (Pipe.x p + Pipe.VELOCITY + pipe_img_width <? 0).

End further_vocabulary.

(** * Properties *)

(** ** Rationals *)

Lemma Qlt_bool_iff (a b : Q) : Qlt_bool a b = true <-> (a < b)%Q.
Proof.
  unfold Qlt_bool. rewrite negb_true_iff.
  destruct (Qle_bool b a) eqn:E.
  - apply Qle_bool_iff in E. split; [discriminate | intros H; exfalso; lra].
  - split; [intros _ | reflexivity].
    destruct (Qlt_le_dec a b) as [H|H]; [exact H|].
    apply Qle_bool_iff in H. congruence.
Qed.

Lemma Qlt_bool_false (a b : Q) : Qlt_bool a b = false <-> (b <= a)%Q.
Proof.
  unfold Qlt_bool. rewrite negb_false_iff. apply Qle_bool_iff.
Qed.

Lemma Qle_bool_false (a b : Q) : Qle_bool a b = false <-> (b < a)%Q.
Proof.
  rewrite <- Qlt_bool_iff. unfold Qlt_bool.
  destruct (Qle_bool a b); simpl; split; congruence.
Qed.

(** ** Agent physics *)

Lemma displacement_raw_eq (v : Q) (t : Z) :
  (v * inject_Z t + (3 # 2) * inject_Z (t ^ 2)
   == v * inject_Z t + (3 # 2) * (inject_Z t * inject_Z t))%Q.
Proof.
  rewrite Z.pow_2_r, inject_Z_mult. reflexivity.
Qed.

Lemma displacement_refines (v : Q) (t : Z) :
  (Bird.displacement v t == Bird.spec_displacement v t)%Q.
Proof.
  unfold Bird.displacement, Bird.spec_displacement.
  pose proof (displacement_raw_eq v t) as Hraw.
  set (r1 := (v * inject_Z t + (3 # 2) * inject_Z (t ^ 2))%Q) in *.
  set (r2 := (v * inject_Z t + (3 # 2) * (inject_Z t * inject_Z t))%Q) in *.
  cbv zeta.
  destruct (Q.min_spec r2 16) as [[Hlt Hm]|[Hle Hm]];
    set (m := Qmin r2 16) in *; clearbody m r1 r2.
  - assert (E : Qle_bool 16 r1 = false) by (apply Qle_bool_false; lra).
    rewrite E.
    destruct (Qlt_le_dec m 0) as [Hn|Hn].
    + assert (E' : Qlt_bool r1 0 = true) by (apply Qlt_bool_iff; lra).
      rewrite E'. lra.
    + assert (E' : Qlt_bool r1 0 = false) by (apply Qlt_bool_false; lra).
      rewrite E'. lra.
  - assert (E : Qle_bool 16 r1 = true) by (apply Qle_bool_iff; lra).
    rewrite E.
    assert (E' : Qlt_bool 16 0 = false) by reflexivity.
    rewrite E'.
    destruct (Qlt_le_dec m 0) as [Hn|Hn]; lra.
Qed.

Lemma spec_displacement_le_16 (v : Q) (t : Z) :
  (Bird.spec_displacement v t <= 16)%Q.
Proof.
  unfold Bird.spec_displacement. cbv zeta.
  set (r := (v * inject_Z t + (3 # 2) * (inject_Z t * inject_Z t))%Q).
  pose proof (Q.le_min_r r 16) as Hm.
  destruct (Qlt_le_dec (Qmin r 16) 0); lra.
Qed.

(** After the clamp and the extra upward step the displacement is still a
    monotone function of the raw kinematic value. *)
Lemma spec_displacement_mono (v : Q) (t t' : Z) :
  (v * inject_Z t + (3 # 2) * (inject_Z t * inject_Z t)
   <= v * inject_Z t' + (3 # 2) * (inject_Z t' * inject_Z t'))%Q ->
  (Bird.spec_displacement v t <= Bird.spec_displacement v t')%Q.
Proof.
  unfold Bird.spec_displacement. cbv zeta.
  set (r := (v * inject_Z t + (3 # 2) * (inject_Z t * inject_Z t))%Q).
  set (r' := (v * inject_Z t' + (3 # 2) * (inject_Z t' * inject_Z t'))%Q).
  intros Hr.
  assert (Hm : (Qmin r 16 <= Qmin r' 16)%Q).
  { destruct (Q.min_spec r 16) as [[? ->]|[? ->]];
      destruct (Q.min_spec r' 16) as [[? ->]|[? ->]]; lra. }
  destruct (Qlt_le_dec (Qmin r 16) 0), (Qlt_le_dec (Qmin r' 16) 0); lra.
Qed.

Lemma raw_mono_after_crossing (v : Q) (t t' : Z) :
  (Bird.zero_crossing v < inject_Z t)%Q -> t <= t' ->
  (v * inject_Z t + (3 # 2) * (inject_Z t * inject_Z t)
   <= v * inject_Z t' + (3 # 2) * (inject_Z t' * inject_Z t'))%Q.
Proof.
  unfold Bird.zero_crossing. intros Hz Hle.
  assert (Hq : (inject_Z t <= inject_Z t')%Q) by (rewrite <- Zle_Qle; lia).
  set (a := inject_Z t) in *. set (b := inject_Z t') in *.
  clearbody a b.
  assert (Hv : (0 < v + 3 * a)%Q).
  { assert (E : (- v / 3 == - v * (1 # 3))%Q) by (field).
    rewrite E in Hz. lra. }
  nra.
Qed.

(** C5. The displacement that [Bird.move] adds to [y] is
    [velocity * t + 1.5 * t^2] clamped above at 16 and, when negative,
    decreased by 2, where [t >= 1] is the tick count after its increment;
    it never exceeds 16; and with the velocity of a jump, -10.5, it is
    non-decreasing in [t] from the zero-crossing of the velocity on. *)
Theorem displacement_formula_bound_monotone (b : Bird.t) (t1 t2 : Z) :
  let t := Bird.tick_count b + 1 in
  let d := Bird.displacement (Bird.velocity b) t in
  1 <= t ->
  Bird.y (Bird.move b) = (Bird.y b + d)%Q /\
  (d == Bird.spec_displacement (Bird.velocity b) t)%Q /\
  (d <= 16)%Q /\
  ((Bird.zero_crossing (- (21 # 2)) < inject_Z t1)%Q -> t1 <= t2 ->
   (Bird.displacement (- (21 # 2)) t1
    <= Bird.displacement (- (21 # 2)) t2)%Q).
Proof.
  intros t d _. repeat split.
  - apply displacement_refines.
  - unfold d. rewrite displacement_refines. apply spec_displacement_le_16.
  - intros Hz Hle. rewrite !displacement_refines.
    apply spec_displacement_mono, raw_mono_after_crossing; assumption.
Qed.

Lemma displacement_formula_bound_monotone_witness :
  1 <= Bird.tick_count (Bird.jump (Bird.init 230 350)) + 1 /\
  (Bird.zero_crossing (- (21 # 2)) < inject_Z 4)%Q /\ 4 <= 9 /\
  (Bird.displacement (- (21 # 2)) 4 <= Bird.displacement (- (21 # 2)) 9)%Q.
Proof.
  assert (H1 : 1 <= Bird.tick_count (Bird.jump (Bird.init 230 350)) + 1)
    by (simpl; lia).
  assert (H2 : (Bird.zero_crossing (- (21 # 2)) < inject_Z 4)%Q)
    by (vm_compute; reflexivity).
  assert (H3 : 4 <= 9) by lia.
  split; [exact H1|]. split; [exact H2|]. split; [exact H3|].
  exact (proj2 (proj2 (proj2
    (displacement_formula_bound_monotone
       (Bird.jump (Bird.init 230 350)) 4 9 H1))) H2 H3).
Defined.

(** *** Tilt *)

Lemma tilt_inv_init (x0 y0 : Z) : tilt_inv (Bird.init x0 y0).
Proof. left. repeat split; auto. Qed.

Lemma tilt_inv_jump (b : Bird.t) : tilt_inv b -> tilt_inv (Bird.jump b).
Proof.
  intros [(Ht & _ & _ & _)|Hs].
  - left. repeat split; auto.
  - right. exact Hs.
Qed.

Lemma fresh_move_rises (b : Bird.t) :
  fresh b -> Bird.tilt (Bird.move b) = 25.
Proof.
  intros (Ht & Hc & Hv & Hh). unfold Bird.move. cbn [Bird.tilt].
  rewrite Ht, Hc, Hh. change (0 + 1) with 1.
  assert (Hrise :
    Qlt_bool (Bird.displacement (Bird.velocity b) 1) 0
    || Qlt_bool (Bird.y b + Bird.displacement (Bird.velocity b) 1)
                (Bird.y b + 50) = true).
  { destruct Hv as [-> | ->].
    - apply orb_true_iff. right. apply Qlt_bool_iff.
      change (Bird.displacement 0 1) with (3 # 2)%Q. lra.
    - apply orb_true_iff. left. reflexivity. }
  rewrite Hrise. reflexivity.
Qed.

Lemma tilt_inv_move (b : Bird.t) : tilt_inv b -> tilt_inv (Bird.move b).
Proof.
  intros [Hf|Hs]; right.
  - rewrite (fresh_move_rises b Hf). left. reflexivity.
  - unfold Bird.move. cbn [Bird.tilt].
    destruct (_ || _); unfold tilt_step in *;
      unfold Bird.MAX_ROTATION, Bird.ROTATION_VELOCITY;
      destruct Hs as [-> | [-> | [-> | [-> | [-> | [-> | ->]]]]]];
      simpl; lia.
Qed.

Lemma tilt_inv_run (cs : list Bird.call) (b : Bird.t) :
  tilt_inv b -> tilt_inv (Bird.run_calls b cs).
Proof.
  revert b. induction cs as [|c cs IH]; intros b Hb; [exact Hb|].
  apply IH. destruct c; [apply tilt_inv_jump | apply tilt_inv_move]; exact Hb.
Qed.

(** C8, as the code has it. After any sequence of [jump] and [move] calls
    on a newly created agent the tilt lies in [-95, 25]. A [move] that is
    rising, or that ends less than 50 below the height of the last jump,
    sets the tilt to 25; any other [move] takes 20 off the tilt when it
    is above -90 and leaves it alone otherwise, so the decay can end
    below -90. *)
Theorem tilt_stays_in_range (x0 y0 : Z) (cs : list Bird.call) :
  let b := Bird.run_calls (Bird.init x0 y0) cs in
  let d := Bird.displacement (Bird.velocity b) (Bird.tick_count b + 1) in
  -95 <= Bird.tilt b <= 25 /\
  Bird.tilt (Bird.move b) =
    (if Qlt_bool d 0 || Qlt_bool (Bird.y b + d) (Bird.height b + 50)
     then 25
     else if Bird.tilt b >? -90 then Bird.tilt b - 20 else Bird.tilt b).
Proof.
  intros b d.
  assert (Hinv : tilt_inv b) by apply tilt_inv_run, tilt_inv_init.
  assert (Hr : -95 <= Bird.tilt b <= 25).
  { destruct Hinv as [(Ht & _)|Hs]; [lia|].
    unfold tilt_step in Hs. lia. }
  split; [exact Hr|].
  unfold Bird.move. cbn [Bird.tilt]. fold d.
  destruct (_ || _); [|reflexivity].
  unfold Bird.MAX_ROTATION.
  destruct (Bird.tilt b <? 25) eqn:E; [reflexivity|].
  apply Z.ltb_ge in E. lia.
Qed.

(** An agent that never jumps shows a tilt of -95 after its tenth move. *)
Lemma tilt_below_minus_90 :
  Bird.tilt (Bird.run_calls (Bird.init 230 350) (replicate 10 Bird.Move))
  = -95 /\
  ~ (-90 <= Bird.tilt
       (Bird.run_calls (Bird.init 230 350) (replicate 10 Bird.Move)) <= 25).
Proof.
  assert (E : Bird.tilt
    (Bird.run_calls (Bird.init 230 350) (replicate 10 Bird.Move)) = -95)
    by (vm_compute; reflexivity).
  split; [exact E|]. rewrite E. lia.
Qed.

(** ** Scrolling ground *)

Section ground.
Context `{Assets}.

Lemma ground_inv_init (y0 : Z) :
  0 <= Base.WIDTH -> ground_inv (Base.init y0).
Proof. intros HW. left. simpl. lia. Qed.

Lemma ground_inv_move (b : Base.t) :
  WIN_WIDTH <= Base.WIDTH -> ground_inv b -> ground_inv (Base.move b).
Proof.
  unfold WIN_WIDTH, ground_inv, Base.move, Base.VELOCITY. intros HW Hb.
  simpl.
  destruct (Z.ltb_spec (Base.x1 b - 5 + Base.WIDTH) 0) as [H1|H1].
  - destruct (Z.ltb_spec (Base.x2 b - 5 + Base.WIDTH) 0) as [H2|H2]; lia.
  - destruct (Z.ltb_spec (Base.x2 b - 5 + Base.WIDTH) 0) as [H2|H2]; lia.
Qed.

Lemma ground_inv_iter (y0 : Z) (n : nat) :
  WIN_WIDTH <= Base.WIDTH ->
  ground_inv (Nat.iter n Base.move (Base.init y0)).
Proof.
  intros HW. induction n as [|n IH].
  - apply ground_inv_init. unfold WIN_WIDTH in HW. lia.
  - simpl. apply ground_inv_move; assumption.
Qed.

(** C9. However often the ground has moved since its creation, its two
    tiles touch and together cover every position of the window, provided
    a tile is at least as wide as the window; and a tile that the move
    takes wholly off the left edge is put right after the other one. *)
Theorem ground_covers_window (y0 : Z) (n : nat) (p : Z) :
  WIN_WIDTH <= Base.WIDTH ->
  0 <= p <= WIN_WIDTH ->
  let b := Nat.iter n Base.move (Base.init y0) in
  Base.adjacent b /\ Base.covers b p /\
  (Base.x1 b - Base.VELOCITY + Base.WIDTH < 0 ->
   Base.x1 (Base.move b) = Base.x2 (Base.move b) + Base.WIDTH) /\
  (Base.x2 b - Base.VELOCITY + Base.WIDTH < 0 ->
   Base.x2 (Base.move b) = Base.x1 (Base.move b) + Base.WIDTH).
Proof.
  intros HW Hp b.
  pose proof (ground_inv_iter y0 n HW) as Hinv. fold b in Hinv.
  unfold WIN_WIDTH in *.
  unfold Base.adjacent, Base.covers, Base.move, Base.VELOCITY. simpl.
  destruct Hinv as [[E Hr]|[E Hr]].
  - split; [left; exact E|]. split; [lia|]. split; intros Hoff.
    + destruct (Z.ltb_spec (Base.x1 b - 5 + Base.WIDTH) 0); [|lia].
      destruct (Z.ltb_spec (Base.x2 b - 5 + Base.WIDTH) 0); lia.
    + lia.
  - split; [right; exact E|]. split; [lia|]. split; intros Hoff.
    + lia.
    + destruct (Z.ltb_spec (Base.x1 b - 5 + Base.WIDTH) 0); [lia|].
      destruct (Z.ltb_spec (Base.x2 b - 5 + Base.WIDTH) 0); lia.
Qed.

End ground.

Lemma ground_covers_window_witness :
  WIN_WIDTH <= Base.WIDTH (H := rect_assets) /\
  0 <= 250 <= WIN_WIDTH /\
  Base.covers (H := rect_assets)
    (Nat.iter 135 (Base.move (H := rect_assets))
       (Base.init (H := rect_assets) 730)) 250.
Proof.
  assert (HW : WIN_WIDTH <= Base.WIDTH (H := rect_assets))
    by (vm_compute; discriminate).
  assert (Hp : 0 <= 250 <= WIN_WIDTH) by (unfold WIN_WIDTH; lia).
  split; [exact HW|]. split; [exact Hp|].
  exact (proj1 (proj2
    (ground_covers_window (H := rect_assets) 730 135 250 HW Hp))).
Defined.

(** ** Loops over a list that the body may shorten *)

Lemma bind_Ok {A B} (m : res A) (f : A -> res B) (b : B) :
  m ≫= f = Ok b <-> exists a, m = Ok a /\ f a = Ok b.
Proof.
  destruct m; simpl; split.
  - intros E. eauto.
  - intros (a' & [= ->] & E). exact E.
  - discriminate.
  - intros (? & [=] & _).
  - discriminate.
  - intros (? & [=] & _).
Qed.

Section for_in_facts.
Context {St A : Type} (xs : St -> list A) (body : nat -> A -> St -> res St).

(** A loop whose body keeps an invariant, never raises under it and never
    makes the list longer runs to the end of the list within the fuel of
    [for_in], and the invariant holds when the iterator is exhausted. *)
Lemma for_in_from_spec (I : nat -> St -> Prop) :
  (forall i a s, I i s -> xs s !! i = Some a ->
     exists s', body i a s = Ok s' /\ I (S i) s' /\
                (length (xs s') <= length (xs s))%nat) ->
  forall fuel i s, I i s -> (length (xs s) - i < fuel)%nat ->
    exists s' j, for_in_from xs body fuel i s = Ok s' /\ I j s' /\
                 (i <= j)%nat /\ xs s' !! j = None.
Proof.
  intros Hbody fuel. induction fuel as [|fuel IH]; intros i s Hi Hlen.
  - lia.
  - simpl. destruct (xs s !! i) as [a|] eqn:Hl.
    + destruct (Hbody i a s Hi Hl) as (s1 & -> & Hi1 & Hlen1). simpl.
      apply lookup_lt_Some in Hl.
      destruct (IH (S i) s1 Hi1) as (s' & j & E & Hj & Hle & Hnone);
        [lia|].
      exists s', j. repeat split; auto. lia.
    + exists s, i. repeat split; auto.
Qed.

Lemma for_in_spec (I : nat -> St -> Prop) (s : St) :
  (forall i a s, I i s -> xs s !! i = Some a ->
     exists s', body i a s = Ok s' /\ I (S i) s' /\
                (length (xs s') <= length (xs s))%nat) ->
  I 0%nat s ->
  exists s' j, for_in xs body s = Ok s' /\ I j s' /\ xs s' !! j = None.
Proof.
  intros Hbody H0.
  destruct (for_in_from_spec I Hbody (S (length (xs s))) 0 s H0)
    as (s' & j & E & Hj & _ & Hnone); [lia|].
  exists s', j. auto.
Qed.

(** Once a loop has come to an end, by exhausting its list or by raising,
    more fuel changes nothing. *)
Lemma for_in_from_more_fuel (fuel fuel' i : nat) (s : St) (r : res St) :
  for_in_from xs body fuel i s = r -> r <> OutOfFuel ->
  (fuel <= fuel')%nat -> for_in_from xs body fuel' i s = r.
Proof.
  revert fuel' i s. induction fuel as [|fuel IH]; intros fuel' i s E Hr Hle.
  - cbn in E. congruence.
  - destruct fuel' as [|fuel']; [lia|]. cbn in *.
    destruct (xs s !! i) as [a|]; [|exact E].
    destruct (body i a s) as [s1|e|]; cbn in *; [|exact E|exact E].
    apply IH; [exact E|exact Hr|lia].
Qed.

End for_in_facts.

(** ** The population: three lists kept in step, and the fitness store *)

Lemma zip_with_delete {X Y Z} (f : X -> Y -> Z) (i : nat) (l : list X)
  (k : list Y) :
  delete i (zip_with f l k) = zip_with f (delete i l) (delete i k).
Proof.
  revert i k. induction l as [|a l IH]; intros i k.
  - destruct i; reflexivity.
  - destruct k as [|b k].
    + destruct i; simpl; [destruct l; reflexivity|].
      destruct (delete i l); reflexivity.
    + destruct i; simpl; [reflexivity|]. f_equal. apply IH.
Qed.

Lemma elem_of_delete_ne {X} (l : list X) (i : nat) (a b : X) :
  a ∈ l -> l !! i = Some b -> a <> b -> a ∈ delete i l.
Proof.
  intros Ha Hb Hne. apply list_elem_of_lookup in Ha as [j Hj].
  apply list_elem_of_lookup.
  destruct (decide (j < i)%nat) as [Hlt|Hge].
  - exists j. rewrite list_lookup_delete_lt; auto.
  - assert (j <> i) by (intros ->; congruence).
    exists (pred j). rewrite list_lookup_delete_ge by lia.
    replace (S (pred j)) with j by lia. exact Hj.
Qed.

Lemma NoDup_delete_lookup {X} (l : list X) (i : nat) (a : X) :
  NoDup l -> l !! i = Some a -> a ∉ delete i l.
Proof.
  intros Hnd Hi Hin. apply list_elem_of_lookup in Hin as [j Hj].
  destruct (decide (j < i)%nat) as [Hlt|Hge].
  - rewrite list_lookup_delete_lt in Hj by auto.
    pose proof (NoDup_lookup l i j a Hnd Hi Hj). lia.
  - rewrite list_lookup_delete_ge in Hj by lia.
    pose proof (NoDup_lookup l i (S j) a Hnd Hi Hj). lia.
Qed.

Lemma wf_set_fitness_insert (w : World) (g : ref) (q : float) :
  wf w -> wf (set_fitness (<[g := q]> (fitness w)) w).
Proof.
  intros (Ha & Hnd & Hf). split; [exact Ha|]. split; [exact Hnd|].
  intros g' Hg'. simpl. apply lookup_insert_is_Some.
  destruct (decide (g = g')); [left; auto|right; split; auto].
Qed.

Lemma aug_fitness_spec (op : float -> float) (x : nat) (w : World)
  (g : ref) :
  wf w -> ge w !! x = Some g ->
  exists f, fitness w !! g = Some f /\
    aug_fitness op x w = Ok (set_fitness (<[g := op f]> (fitness w)) w).
Proof.
  intros (_ & _ & Hf) Hg.
  destruct (Hf g (list_elem_of_lookup_2 _ _ _ Hg)) as [f Hfg].
  exists f. split; [exact Hfg|].
  unfold aug_fitness, index, get_fitness. rewrite Hg. simpl.
  rewrite Hfg. reflexivity.
Qed.

Lemma add_fitness_spec (x : nat) (delta : float) (w : World) (g : ref) :
  wf w -> ge w !! x = Some g ->
  exists f, fitness w !! g = Some f /\
    add_fitness x delta w
    = Ok (set_fitness (<[g := (f + delta)%float]> (fitness w)) w).
Proof. apply aug_fitness_spec. Qed.

Lemma sub_fitness_spec (x : nat) (delta : float) (w : World) (g : ref) :
  wf w -> ge w !! x = Some g ->
  exists f, fitness w !! g = Some f /\
    sub_fitness x delta w
    = Ok (set_fitness (<[g := (f - delta)%float]> (fitness w)) w).
Proof. apply aug_fitness_spec. Qed.

Lemma pop_agent_spec (x : nat) (w : World) :
  aligned w -> (x < length (birds w))%nat ->
  pop_agent x w = Ok (popped x w).
Proof.
  intros [Hn Hg] Hx. unfold pop_agent, pop.
  destruct (lookup_lt_is_Some_2 (birds w) x Hx) as [b ->]. simpl.
  destruct (lookup_lt_is_Some_2 (nets w) x) as [n ->]; [lia|]. simpl.
  destruct (lookup_lt_is_Some_2 (ge w) x) as [g ->]; [lia|]. reflexivity.
Qed.

Lemma agents_popped (x : nat) (w : World) :
  agents (popped x w) = delete x (agents w).
Proof.
  unfold agents, popped. cbn [birds nets ge set_ge set_nets set_birds].
  rewrite !zip_with_delete. reflexivity.
Qed.

Lemma wf_popped (x : nat) (w : World) :
  wf w -> (x < length (birds w))%nat -> wf (popped x w).
Proof.
  intros ([Hn Hg] & Hnd & Hf) Hx. split; [|split].
  - split; simpl; rewrite !length_delete; try lia;
      apply lookup_lt_is_Some_2; lia.
  - simpl. eapply sublist_NoDup; first [apply sublist_delete | exact Hnd].
  - intros g Hin. simpl in *. apply Hf.
    eapply elem_of_sublist; [exact Hin|apply sublist_delete].
Qed.

Lemma scan_rel_refl (w : World) : wf w -> scan_rel w w.
Proof.
  intros Hw. repeat split; try reflexivity; try apply Hw; auto.
  intros g Hin Hnin. contradiction.
Qed.

(** The effect of lines 338-342 on the relation. *)
Lemma scan_rel_collide (w0 w : World) (i : nat) (g : ref) (f : float) :
  scan_rel w0 w -> ge w !! i = Some g -> fitness w !! g = Some f ->
  scan_rel w0
    (popped i (set_fitness (<[g := (f - 1)%float]> (fitness w)) w)).
Proof.
  intros (Hwf & Hag & Hge & Hb & Hs & Hkeep & Hout & Hgone) Hg Hf.
  assert (Hi : (i < length (birds w))%nat).
  { destruct Hwf as ([_ Hl] & _). apply lookup_lt_Some in Hg. lia. }
  assert (Hgin : g ∈ ge w) by (eapply list_elem_of_lookup_2; eauto).
  assert (Hnd : NoDup (ge w)) by apply Hwf.
  split; [apply wf_popped; [apply wf_set_fitness_insert|]; auto|].
  split.
  { rewrite agents_popped. etrans; [apply sublist_delete|exact Hag]. }
  split.
  { cbn. etrans; [apply sublist_delete|exact Hge]. }
  split; [exact Hb|]. split; [exact Hs|].
  cbn [popped fitness ge set_ge set_nets set_birds set_fitness].
  split; [|split].
  - intros g' Hin.
    assert (g' <> g).
    { intros ->. eapply NoDup_delete_lookup; eauto. }
    rewrite lookup_insert_ne by auto.
    apply Hkeep. eapply list_elem_of_delete_inv; eauto.
  - intros g' Hnin.
    assert (g' <> g).
    { intros ->. apply Hnin. eapply elem_of_sublist; eauto. }
    rewrite lookup_insert_ne by auto. apply Hout, Hnin.
  - intros g' Hin0 Hnin.
    destruct (decide (g' = g)) as [->|Hne].
    + exists f. rewrite lookup_insert_eq. split; [|reflexivity].
      rewrite <- Hf. symmetry. apply Hkeep, Hgin.
    + rewrite lookup_insert_ne by auto. apply Hgone; [exact Hin0|].
      intros Hin. apply Hnin. eapply elem_of_delete_ne; eauto.
Qed.

Section scan_facts.
Context `{Assets}.

Lemma scan_body_spec (w0 w : World) (pipe : Pipe.t) (add : bool)
  (i : nat) (bird : Bird.t) (s : ScanState) :
  scan_inv w0 w pipe add i s -> birds s.1.1 !! i = Some bird ->
  exists s', scan_body i bird s = Ok s' /\
    scan_inv w0 w pipe add (S i) s' /\
    (length (birds s'.1.1) <= length (birds s.1.1))%nat.
Proof.
  destruct s as [[w1 pipe1] add1]. unfold scan_inv. cbn [fst snd].
  intros (Hrel & Hp & Hsub & H0 & Hpos & Hflag & Hfire) Hb.
  assert (Hwf : wf w1) by apply Hrel.
  assert (Hi : (i < length (birds w1))%nat) by (eapply lookup_lt_Some; eauto).
  assert (Hne : birds w <> []).
  { intros E. rewrite E in Hsub. apply sublist_nil_r in Hsub.
    rewrite Hsub in Hb. discriminate. }
  assert (Hbx : forall x0, same_x x0 w -> Bird.x bird = x0).
  { intros x0 Hx. apply Hx. eapply elem_of_sublist; [|exact Hsub].
    eapply list_elem_of_lookup_2; eauto. }
  (* the collision test and the removal *)
  assert (Hstep : exists w2,
    (if Pipe.collide pipe1 bird
     then w ← sub_fitness i 1%float w1; pop_agent i w
     else Ok w1) = Ok w2 /\
    scan_rel w0 w2 /\ pipes w2 = pipes w1 /\
    birds w2 `sublist_of` birds w1).
  { destruct (Pipe.collide pipe1 bird).
    - destruct (lookup_lt_is_Some_2 (ge w1) i) as [g Hg].
      { destruct Hwf as ([_ Hl] & _). lia. }
      destruct (sub_fitness_spec i 1%float w1 g Hwf Hg) as (f & Hf & ->).
      cbn. rewrite pop_agent_spec;
        [|apply wf_set_fitness_insert, Hwf|exact Hi].
      eexists. split; [reflexivity|]. split.
      + apply scan_rel_collide; auto.
      + split; [reflexivity|]. cbn. apply sublist_delete.
    - exists w1. split; [reflexivity|]. split; [exact Hrel|].
      split; reflexivity. }
  unfold scan_body. cbv beta iota zeta.
  destruct Hstep as (w2 & -> & Hrel2 & Hp2 & Hsub2).
  cbn [mbind res_bind].
  assert (Hlen : (length (birds w2) <= length (birds w1))%nat)
    by (apply sublist_length, Hsub2).
  destruct (negb (Pipe.passed pipe1) && (Pipe.x pipe1 <? Bird.x bird))
    eqn:Htest.
  - eexists. split; [reflexivity|]. cbn [fst snd].
    apply andb_true_iff in Htest as [Hnp Hx].
    apply negb_true_iff in Hnp.
    assert (Hpipe1 : pipe1 = pipe /\ add1 = add).
    { destruct Hflag as [?|(_ & -> & _)]; [assumption|discriminate]. }
    destruct Hpipe1 as [-> ->].
    split; [|exact Hlen].
    split; [exact Hrel2|]. split; [congruence|].
    split; [etrans; eauto|]. split; [lia|]. split; [auto|].
    split; [right; auto|].
    intros x0 Hsame. change ((0 <? S i)%nat) with true. cbn [andb].
    rewrite <- (Hbx x0 Hsame), Hnp, Hx. cbn [negb andb].
    split; [reflexivity|]. symmetry. apply orb_true_r.
  - eexists. split; [reflexivity|]. cbn [fst snd].
    split; [|exact Hlen].
    split; [exact Hrel2|]. split; [congruence|].
    split; [etrans; eauto|]. split; [lia|]. split; [auto|].
    split; [exact Hflag|].
    intros x0 Hsame. specialize (Hfire x0 Hsame). cbn zeta in Hfire.
    destruct Hfire as [Hpf Haf].
    destruct i as [|i].
    + specialize (H0 eq_refl). injection H0 as _ -> ->.
      change ((0 <? 1)%nat) with true. cbn [andb].
      rewrite <- (Hbx x0 Hsame), Htest. split; [reflexivity|].
      symmetry. apply orb_false_r.
    + exact (conj Hpf Haf).
Qed.

(** The scan of the population for one pipe: it ends without raising, the
    population only shrinks, and the flag of the pipe is set exactly when
    [fires] says so. *)
Lemma scan_birds_spec (w0 w : World) (pipe : Pipe.t) (add : bool) :
  scan_rel w0 w ->
  exists w' pipe' add',
    scan_birds (w, pipe, add) = Ok (w', pipe', add') /\
    scan_rel w0 w' /\ pipes w' = pipes w /\
    (pipe' = pipe /\ add' = add \/
     Pipe.passed pipe = false /\ pipe' = Pipe.set_passed true pipe /\
     add' = true) /\
    (forall x0, same_x x0 w ->
       pipe' = (if fires x0 w pipe then Pipe.set_passed true pipe else pipe)
       /\ add' = add || fires x0 w pipe).
Proof.
  intros Hrel. unfold scan_birds.
  destruct (for_in_spec (fun s : ScanState => birds s.1.1) scan_body
              (scan_inv w0 w pipe add) (w, pipe, add))
    as ([[w' pipe'] add'] & j & E & Hinv & Hnone).
  - intros i a s Hs Ha. apply (scan_body_spec w0 w pipe add); assumption.
  - unfold scan_inv. cbn [fst snd].
    split; [exact Hrel|]. split; [reflexivity|]. split; [reflexivity|].
    split; [auto|]. split; [lia|]. split; [left; auto|].
    intros x0 _. change ((0 <? 0)%nat) with false. cbn [andb].
    split; [reflexivity|]. symmetry. apply orb_false_r.
  - exists w', pipe', add'. split; [exact E|].
    destruct Hinv as (Hrel' & Hp & Hsub & H0 & Hpos & Hflag & Hfire).
    cbn [fst snd] in *.
    split; [exact Hrel'|]. split; [exact Hp|]. split; [exact Hflag|].
    intros x0 Hsame. specialize (Hfire x0 Hsame). cbn zeta in Hfire.
    assert (Hj : (0 <? j)%nat = bool_decide (birds w <> [])).
    { destruct j as [|j].
      - specialize (H0 eq_refl). injection H0 as -> _ _.
        destruct (birds w); [reflexivity|discriminate].
      - cbn. symmetry. apply bool_decide_eq_true. apply Hpos. lia. }
    unfold fires. rewrite <- Hj. exact Hfire.
Qed.

(** Why an agent is passed over: when the agent at position [i] is
    removed, every later agent moves one position down, so the agent
    that stood right behind it now stands at [i], while the iterator goes
    on at [i + 1]. *)
Lemma collision_removal_shifts (w : World) (pipe : Pipe.t) (add : bool)
  (i : nat) (b : Bird.t) :
  wf w -> birds w !! i = Some b -> Pipe.collide pipe b = true ->
  exists w' pipe' add',
    scan_body i b (w, pipe, add) = Ok (w', pipe', add') /\
    forall j, (i <= j)%nat ->
      birds w' !! j = birds w !! S j /\ ge w' !! j = ge w !! S j.
Proof.
  intros Hwf Hb Hc.
  pose proof (lookup_lt_Some _ _ _ Hb) as Hi.
  destruct (lookup_lt_is_Some_2 (ge w) i) as [g Hg].
  { destruct Hwf as ([_ Hl] & _). lia. }
  destruct (sub_fitness_spec i 1%float w g Hwf Hg) as (f & Hf & Eadd).
  unfold scan_body. rewrite Hc, Eadd. cbn [mbind res_bind].
  rewrite pop_agent_spec; [|apply wf_set_fitness_insert, Hwf|exact Hi].
  cbn [mbind res_bind].
  destruct (negb (Pipe.passed pipe) && (Pipe.x pipe <? Bird.x b));
    (eexists; eexists; eexists; split; [reflexivity|]);
    intros j Hj; cbn; rewrite !list_lookup_delete_ge by exact Hj; auto.
Qed.

End scan_facts.

(** ** Loops that add to the fitness of every agent in turn *)

Lemma bumped_0 (delta : float) (gs : list ref) (fit : gmap ref float) :
  bumped delta 0 gs fit fit.
Proof.
  split; [|reflexivity].
  intros x g _. destruct (fit !! g); reflexivity.
Qed.

Lemma bumped_step (delta : float) (i : nat) (gs : list ref)
  (fit0 fit : gmap ref float) (g : ref) (f : float) :
  NoDup gs -> gs !! i = Some g -> fit !! g = Some f ->
  bumped delta i gs fit0 fit ->
  bumped delta (S i) gs fit0 (<[g := (f + delta)%float]> fit).
Proof.
  intros Hnd Hg Hf [Hin Hout]. split.
  - intros x g' Hx. destruct (decide (g' = g)) as [->|Hne].
    + assert (x = i) as -> by (eapply NoDup_lookup; eauto).
      rewrite lookup_insert_eq.
      specialize (Hin i g Hg). rewrite Nat.ltb_irrefl, Hf in Hin.
      destruct (fit0 !! g) as [f0|]; [|discriminate].
      injection Hin as ->.
      replace (i <? S i)%nat with true
        by (symmetry; apply Nat.ltb_lt; lia).
      reflexivity.
    + rewrite lookup_insert_ne by auto.
      assert (x <> i) by (intros ->; congruence).
      rewrite (Hin x g' Hx).
      replace (x <? S i)%nat with (x <? i)%nat; [reflexivity|].
      destruct (Nat.ltb_spec x i), (Nat.ltb_spec x (S i)); auto; lia.
  - intros g' Hnin.
    assert (g' <> g).
    { intros ->. apply Hnin. eapply list_elem_of_lookup_2; eauto. }
    rewrite lookup_insert_ne by auto. apply Hout, Hnin.
Qed.

Lemma bumped_end (delta : float) (j : nat) (gs : list ref)
  (fit0 fit : gmap ref float) (g : ref) :
  gs !! j = None -> bumped delta j gs fit0 fit -> g ∈ gs ->
  fit !! g = (fun f => (f + delta)%float) <$> fit0 !! g.
Proof.
  intros Hj [Hin _] Hg. apply list_elem_of_lookup in Hg as [x Hx].
  rewrite (Hin x g Hx).
  assert (x < j)%nat.
  { apply lookup_ge_None in Hj. apply lookup_lt_Some in Hx. lia. }
  replace (x <? j)%nat with true; [reflexivity|].
  symmetry. apply Nat.ltb_lt. assumption.
Qed.

Lemma bumped_is_Some (delta : float) (j : nat) (gs : list ref)
  (fit0 fit : gmap ref float) (g : ref) :
  bumped delta j gs fit0 fit -> is_Some (fit0 !! g) -> is_Some (fit !! g).
Proof.
  intros [Hin Hout] [f Hf].
  destruct (decide (g ∈ gs)) as [Hg|Hg].
  - apply list_elem_of_lookup in Hg as [x Hx].
    rewrite (Hin x g Hx), Hf. cbn. eauto.
  - rewrite (Hout g Hg), Hf. eauto.
Qed.

Section think_facts.
Context `{Assets}.

Lemma think_body_spec (pipe_ind : nat) (pipe : Pipe.t) (w : World)
  (i : nat) (bird : Bird.t) (s : World) :
  pipes w !! pipe_ind = Some pipe ->
  think_inv pipe w i s -> birds s !! i = Some bird ->
  exists s', think_body pipe_ind i bird s = Ok s' /\
    think_inv pipe w (S i) s' /\
    (length (birds s') <= length (birds s))%nat.
Proof.
  intros Hpipe (Hwf & Hn & Hg & Hp & Hb & Hsc & Hlen & Hbirds & Hbump) Hbi.
  assert (Hi : (i < length (birds s))%nat) by (eapply lookup_lt_Some; eauto).
  destruct Hwf as ([Hln Hlg] & Hnd & Hfit).
  destruct (lookup_lt_is_Some_2 (ge s) i) as [g Hgi]; [lia|].
  destruct (lookup_lt_is_Some_2 (nets s) i) as [net Hni]; [lia|].
  destruct (lookup_lt_is_Some_2 (birds w) i) as [b0 Hb0]; [lia|].
  assert (Hbird : bird = b0).
  { rewrite Hn in Hni. specialize (Hbirds i b0 net Hb0 Hni).
    rewrite Nat.ltb_irrefl in Hbirds. congruence. }
  subst b0.
  destruct (add_fitness_spec i 0.1%float s g) as (f & Hf & Eadd);
    [repeat split; auto|exact Hgi|].
  unfold think_body. rewrite Eadd. cbn [mbind res_bind].
  unfold index. cbn [nets pipes set_fitness]. rewrite Hni, Hp, Hpipe.
  cbn [mbind res_bind].
  eexists. split; [reflexivity|]. split.
  - unfold think_inv.
    cbn [birds nets ge fitness pipes base score set_birds set_fitness].
    rewrite length_insert. split.
    { split; [split|split];
        cbn [birds nets ge fitness set_birds set_fitness];
        rewrite ?length_insert; auto.
      intros g' Hg'. apply lookup_insert_is_Some.
      destruct (decide (g = g')); [left; auto|right; split; auto]. }
    repeat (split; [assumption|]).
    split.
    + intros x b net' Hxb Hxn.
      destruct (decide (x = i)) as [->|Hne].
      * rewrite list_lookup_insert_eq by exact Hi.
        replace (i <? S i)%nat with true
          by (symmetry; apply Nat.ltb_lt; lia).
        rewrite Hn in Hni.
        assert (net' = net) as -> by congruence.
        assert (b = bird) as -> by congruence.
        reflexivity.
      * rewrite list_lookup_insert_ne by auto.
        rewrite (Hbirds x b net' Hxb Hxn).
        replace (x <? S i)%nat with (x <? i)%nat; [reflexivity|].
        destruct (Nat.ltb_spec x i), (Nat.ltb_spec x (S i)); auto; lia.
    + apply bumped_step; auto; congruence.
  - cbn. rewrite length_insert. lia.
Qed.

(** The loop of lines 320-328 in one step: every agent is moved and
    steered once, and the fitness of every genome of the population
    becomes its binary64 sum with 0.1. *)
Lemma think_spec (pipe_ind : nat) (pipe : Pipe.t) (w : World) :
  wf w -> pipes w !! pipe_ind = Some pipe ->
  exists w', think pipe_ind w = Ok w' /\ wf w' /\
    nets w' = nets w /\ ge w' = ge w /\ pipes w' = pipes w /\
    base w' = base w /\ score w' = score w /\
    length (birds w') = length (birds w) /\
    (forall x b net, birds w !! x = Some b -> nets w !! x = Some net ->
       birds w' !! x = Some (controlled pipe net b)) /\
    (forall g, g ∈ ge w ->
       fitness w' !! g = (fun f => (f + 0.1)%float) <$> fitness w !! g) /\
    (forall g, g ∉ ge w -> fitness w' !! g = fitness w !! g).
Proof.
  intros Hwf Hpipe. unfold think.
  destruct (for_in_spec birds (think_body pipe_ind) (think_inv pipe w) w)
    as (w' & j & E & Hinv & Hnone).
  - intros i a s Hs Ha. eapply think_body_spec; eauto.
  - repeat split; try apply Hwf; auto. apply bumped_0.
  - exists w'. split; [exact E|].
    destruct Hinv as (Hwf' & Hn & Hg & Hp & Hb & Hsc & Hlen & Hbirds & Hbump).
    repeat (split; [assumption|]).
    apply lookup_ge_None in Hnone.
    split; [|split].
    + intros x b net Hxb Hxn. rewrite (Hbirds x b net Hxb Hxn).
      apply lookup_lt_Some in Hxb.
      replace (x <? j)%nat with true; [reflexivity|].
      symmetry. apply Nat.ltb_lt. lia.
    + intros g Hgin. eapply bumped_end; eauto.
      apply lookup_ge_None. destruct Hwf as ([_ Hl] & _). lia.
    + apply Hbump.
Qed.

End think_facts.

(** ** The scan of all pipes, the award, the bounds check *)

Lemma scan_rel_set_pipes (w0 w : World) (ps : list Pipe.t) :
  scan_rel w0 w -> scan_rel w0 (set_pipes ps w).
Proof. intros Hrel. exact Hrel. Qed.

Lemma agents_lookup (w : World) (i : nat) (b : Bird.t) :
  aligned w -> birds w !! i = Some b ->
  exists net g, nets w !! i = Some net /\ ge w !! i = Some g /\
                agents w !! i = Some (b, net, g).
Proof.
  intros [Hn Hg] Hb. pose proof (lookup_lt_Some _ _ _ Hb) as Hi.
  destruct (lookup_lt_is_Some_2 (nets w) i) as [net Hni]; [lia|].
  destruct (lookup_lt_is_Some_2 (ge w) i) as [g Hgi]; [lia|].
  exists net, g. split; [exact Hni|]. split; [exact Hgi|].
  unfold agents. rewrite !lookup_zip_with, Hb, Hni, Hgi. reflexivity.
Qed.

Lemma agents_birds (w : World) (a : Bird.t * Net * ref) :
  a ∈ agents w -> a.1.1 ∈ birds w.
Proof.
  intros Ha. apply list_elem_of_lookup in Ha as [i Hi].
  unfold agents in Hi.
  apply lookup_zip_with_Some in Hi as (bn & g & -> & Hbn & _).
  apply lookup_zip_with_Some in Hbn as (b & n & -> & Hb & _).
  cbn. eapply list_elem_of_lookup_2; eauto.
Qed.

Lemma birds_agents (w : World) (b : Bird.t) :
  aligned w -> b ∈ birds w -> exists a, a ∈ agents w /\ a.1.1 = b.
Proof.
  intros Hal Hb. apply list_elem_of_lookup in Hb as [i Hi].
  destruct (agents_lookup w i b Hal Hi) as (net & g & _ & _ & Ha).
  exists (b, net, g). split; [|reflexivity].
  eapply list_elem_of_lookup_2; eauto.
Qed.

Lemma draw_x (b : Bird.t) : Bird.x (Bird.draw b) = Bird.x b.
Proof.
  unfold Bird.draw. repeat destruct (_ <? _); destruct (_ <=? _);
    reflexivity.
Qed.

Lemma controlled_x (pipe : Pipe.t) (net : Net) (b : Bird.t) :
  Bird.x (controlled pipe net b) = Bird.x b.
Proof. unfold controlled. destruct (Qlt_bool _ _); reflexivity. Qed.

Section tick_facts.
Context `{Assets}.

Lemma pipe_body_spec (w0 : World) (k : nat) (pipe : Pipe.t)
  (s : World * bool * list nat) :
  scan_rel w0 s.1.1 -> pipes s.1.1 !! k = Some pipe ->
  exists s', pipe_body k pipe s = Ok s' /\ scan_rel w0 s'.1.1 /\
    length (pipes s'.1.1) = length (pipes s.1.1) /\
    (forall r, r ∈ s'.2 -> r ∈ s.2 \/ r = k).
Proof.
  destruct s as [[w add] rem]. cbn [fst snd]. intros Hrel Hk.
  destruct (scan_birds_spec w0 w pipe add Hrel)
    as (w' & pipe' & add' & E & Hrel' & Hp & _).
  unfold pipe_body. rewrite E. cbn [mbind res_bind].
  eexists. split; [reflexivity|]. cbn [fst snd]. split; [|split].
  - apply scan_rel_set_pipes, Hrel'.
  - cbn. rewrite length_insert, Hp. reflexivity.
  - intros r Hr. destruct (_ <? _); [|left; exact Hr].
    apply elem_of_app in Hr as [Hr|Hr]; [left; exact Hr|right].
    apply list_elem_of_singleton in Hr. exact Hr.
Qed.

(** The loops of lines 333-353 in one step. *)
Lemma scan_pipes_spec (w : World) :
  wf w ->
  exists w' add_pipe rem, scan_pipes w = Ok (w', add_pipe, rem) /\
    scan_rel w w' /\ length (pipes w') = length (pipes w) /\
    (forall r, r ∈ rem -> (r < length (pipes w))%nat).
Proof.
  intros Hwf. unfold scan_pipes.
  destruct (for_in_spec
              (fun s : World * bool * list nat => pipes s.1.1) pipe_body
              (fun _ s => scan_rel w s.1.1 /\
                          length (pipes s.1.1) = length (pipes w) /\
                          (forall r, r ∈ s.2 -> (r < length (pipes w))%nat))
              (w, false, []))
    as ([[w' add] rem] & j & E & (Hrel & Hlen & Hrem) & _).
  - intros i a s (Hrel & Hlen & Hrem) Ha.
    destruct (pipe_body_spec w i a s Hrel Ha)
      as (s' & E & Hrel' & Hlen' & Hrem').
    exists s'. split; [exact E|]. split; [|lia].
    split; [exact Hrel'|]. split; [congruence|].
    intros r Hr. destruct (Hrem' r Hr) as [Hold| ->]; [auto|].
    apply lookup_lt_Some in Ha. lia.
  - split; [apply scan_rel_refl, Hwf|]. split; [reflexivity|].
    cbn. intros r Hr. apply elem_of_nil in Hr. contradiction.
  - exists w', add, rem. auto.
Qed.

Lemma award_body_spec (w : World) (i : nat) (g : ref) (s : World) :
  (wf s /\ birds s = birds w /\ nets s = nets w /\ ge s = ge w /\
   pipes s = pipes w /\ base s = base w /\ score s = score w /\
   bumped 5 i (ge w) (fitness w) (fitness s)) ->
  ge s !! i = Some g ->
  exists s', award_body i g s = Ok s' /\
    (wf s' /\ birds s' = birds w /\ nets s' = nets w /\ ge s' = ge w /\
     pipes s' = pipes w /\ base s' = base w /\ score s' = score w /\
     bumped 5 (S i) (ge w) (fitness w) (fitness s')) /\
    (length (ge s') <= length (ge s))%nat.
Proof.
  intros (Hwf & Hb & Hn & Hg & Hp & Hba & Hsc & Hbump) Hgi.
  destruct Hwf as (Hal & Hnd & Hfit).
  destruct (Hfit g (list_elem_of_lookup_2 _ _ _ Hgi)) as [f Hf].
  unfold award_body, get_fitness. rewrite Hf. cbn [mbind res_bind].
  eexists. split; [reflexivity|]. split; [|reflexivity].
  split.
  { apply wf_set_fitness_insert. repeat split; auto; apply Hal. }
  cbn [birds nets ge fitness pipes base score set_fitness].
  repeat (split; [assumption|]).
  apply bumped_step; auto; congruence.
Qed.

(** Lines 356-360 in one step. *)
Lemma award_spec (h : Z) (w : World) :
  wf w ->
  exists w', award h w = Ok w' /\ wf w' /\
    birds w' = birds w /\ nets w' = nets w /\ ge w' = ge w /\
    pipes w' = pipes w ++ [Pipe.init 600 h] /\
    base w' = base w /\ score w' = score w + 1 /\
    (forall g, g ∈ ge w ->
       fitness w' !! g = (fun f => (f + 5)%float) <$> fitness w !! g) /\
    (forall g, g ∉ ge w -> fitness w' !! g = fitness w !! g).
Proof.
  intros Hwf. unfold award.
  set (w1 := set_score (score w + 1) w).
  destruct (for_in_spec ge award_body
              (fun i s => wf s /\ birds s = birds w1 /\ nets s = nets w1 /\
                 ge s = ge w1 /\ pipes s = pipes w1 /\ base s = base w1 /\
                 score s = score w1 /\
                 bumped 5 i (ge w1) (fitness w1) (fitness s)) w1)
    as (w' & j & E & Hinv & Hnone).
  - intros i a s Hs Ha. apply (award_body_spec w1); assumption.
  - split; [exact Hwf|]. repeat (split; [reflexivity|]). apply bumped_0.
  - rewrite E. cbn [mbind res_bind]. eexists. split; [reflexivity|].
    destruct Hinv as (Hwf' & Hb & Hn & Hg & Hp & Hba & Hsc & Hbump).
    cbn [birds nets ge fitness pipes base score set_pipes].
    split; [exact Hwf'|].
    repeat (split; [assumption|]).
    split; [rewrite Hp; reflexivity|].
    repeat (split; [assumption|]).
    split.
    + intros g Hgin.
      apply (bumped_end 5 j (ge w) (fitness w) (fitness w') g);
        [|exact Hbump|exact Hgin].
      rewrite <- Hnone, Hg. reflexivity.
    + apply Hbump.
Qed.

Lemma oob_body_spec (w : World) (i : nat) (bird : Bird.t) (s : World) :
  oob_rel w s -> birds s !! i = Some bird ->
  exists s', oob_body i bird s = Ok s' /\ oob_rel w s' /\
    (length (birds s') <= length (birds s))%nat.
Proof.
  intros (Hwf & Hf & Hp & Hb & Hsc & Hag & Hge & Hstay) Hbi.
  pose proof (lookup_lt_Some _ _ _ Hbi) as Hi.
  unfold oob_body. fold (out_of_bounds bird).
  destruct (out_of_bounds bird) eqn:Hoob.
  - rewrite pop_agent_spec by (auto; apply Hwf).
    eexists. split; [reflexivity|]. split.
    + split; [apply wf_popped; auto|].
      repeat (split; [assumption|]).
      split; [rewrite agents_popped; etrans; [apply sublist_delete|auto]|].
      split; [cbn; etrans; [apply sublist_delete|auto]|].
      intros a Ha Hin. rewrite agents_popped.
      destruct (agents_lookup s i bird) as (net & g & _ & _ & Hai);
        [apply Hwf|exact Hbi|].
      eapply elem_of_delete_ne; [apply Hstay; auto|exact Hai|].
      intros ->. cbn in Hin. congruence.
    + cbn. rewrite length_delete; [lia|]. eauto.
  - exists s. split; [reflexivity|]. split; [|lia].
    repeat split; auto; apply Hwf.
Qed.

(** The loop of lines 365-370 in one step. *)
Lemma oob_scan_spec (w : World) :
  wf w -> exists w', oob_scan w = Ok w' /\ oob_rel w w'.
Proof.
  intros Hwf. unfold oob_scan.
  destruct (for_in_spec birds oob_body (fun _ s => oob_rel w s) w)
    as (w' & j & E & Hrel & _).
  - intros i a s Hs Ha. apply oob_body_spec; assumption.
  - repeat split; auto; apply Hwf.
  - exists w'. auto.
Qed.

End tick_facts.

Lemma remove_at_app `{Assets} (k : nat) (rem : list nat)
  (l : list Pipe.t) (p : Pipe.t) :
  (forall r, r ∈ rem -> (r < k + length l)%nat) ->
  remove_at k rem (l ++ [p]) = remove_at k rem l ++ [p].
Proof.
  revert k. induction l as [|a l IH]; intros k Hrem; cbn.
  - rewrite bool_decide_eq_false_2; [reflexivity|].
    intros Hin. specialize (Hrem k Hin). cbn in Hrem. lia.
  - rewrite IH; [destruct (bool_decide _); reflexivity|].
    intros r Hr. specialize (Hrem r Hr). cbn in Hrem. lia.
Qed.

Section pass_event.
Context `{Assets}.

(** A round of the loop on a well-formed world, in one step. *)
Lemma round_spec (h : Z) (w : World) (pipe : Pipe.t) :
  wf w -> pipes w !! choose_pipe_ind w = Some pipe ->
  exists w1 add_pipe rem w',
    tick_front w = Ok (w1, add_pipe, rem) /\
    tick_back h (w1, add_pipe, rem) = Ok w' /\
    score w' = score w + (if add_pipe then 1 else 0) /\
    pipes w' = remove_at 0 rem (pipes w1)
               ++ (if add_pipe then [Pipe.init 600 h] else []) /\
    Pipe.x (Pipe.init 600 h) = 600 /\
    length (pipes w1) = length (pipes w) /\
    (forall g f, g ∈ ge w1 -> fitness w !! g = Some f ->
       fitness w' !! g
       = Some (if add_pipe then (f + 0.1 + 5)%float
               else (f + 0.1)%float)) /\
    wf w' /\
    (forall x0, same_x x0 w -> same_x x0 w').
Proof.
  intros Hwf Hpipe.
  destruct (think_spec _ pipe w Hwf Hpipe)
    as (wt & Et & Hwft & _ & Hget & Hpt & _ & Hsct & Hlent & Hbt & Hfit & _).
  destruct (scan_pipes_spec wt Hwft)
    as (w1 & add & rem & Es & Hrel & Hlen & Hrem).
  destruct Hrel as (Hwf1 & Hag1 & Hge1 & _ & Hsc1 & Hkeep & _ & _).
  exists w1, add, rem.
  (* the award, when the flag is set *)
  assert (Haw : exists wa,
    (if add then award h w1 else Ok w1) = Ok wa /\ wf wa /\
    agents wa = agents w1 /\
    score wa = score w + (if add then 1 else 0) /\
    pipes wa = pipes w1 ++ (if add then [Pipe.init 600 h] else []) /\
    (forall g f, g ∈ ge w1 -> fitness w !! g = Some f ->
       fitness wa !! g
       = Some (if add then (f + 0.1 + 5)%float else (f + 0.1)%float))).
  { assert (Hf1 : forall g f, g ∈ ge w1 -> fitness w !! g = Some f ->
                    fitness w1 !! g = Some (f + 0.1)%float).
    { intros g f Hg Hf. rewrite (Hkeep g Hg).
      rewrite Hfit, Hf; [reflexivity|].
      rewrite <- Hget. eapply elem_of_sublist; eauto. }
    destruct add.
    - destruct (award_spec h w1 Hwf1)
        as (wa & -> & Hwfa & Hba & Hna & Hga & Hpa & _ & Hsca & Hfa & _).
      exists wa. split; [reflexivity|]. split; [exact Hwfa|].
      split; [unfold agents; rewrite Hba, Hna, Hga; reflexivity|].
      split; [lia|]. split; [exact Hpa|].
      intros g f Hg Hf. rewrite (Hfa g Hg), (Hf1 g f Hg Hf). reflexivity.
    - exists w1. split; [reflexivity|]. split; [exact Hwf1|].
      split; [reflexivity|].
      split; [lia|]. split; [rewrite app_nil_r; reflexivity|exact Hf1]. }
  destruct Haw as (wa & Ea & Hwfa & Haga & Hsca & Hpa & Hfa).
  destruct (oob_scan_spec (prune rem wa) Hwfa)
    as (wo & Eo & Hwfo & Hfo & Hpo & _ & Hsco & Hago & _).
  exists (draw_window (set_base (Base.move (base wo)) wo)).
  split.
  { unfold tick_front. rewrite Et. cbn [mbind res_bind]. exact Es. }
  split.
  { unfold tick_back. rewrite Ea. cbn [mbind res_bind].
    rewrite Eo. reflexivity. }
  cbn [draw_window set_base set_birds score pipes fitness].
  split; [rewrite Hsco; exact Hsca|].
  split.
  { rewrite Hpo. cbn [prune set_pipes pipes]. rewrite Hpa.
    destruct add; [|rewrite !app_nil_r; reflexivity].
    apply remove_at_app. intros r Hr. cbn. rewrite Hlen. auto. }
  split; [reflexivity|]. split; [congruence|].
  split.
  { intros g f Hg Hf. rewrite Hfo. cbn [prune set_pipes fitness].
    apply Hfa; assumption. }
  split.
  { destruct Hwfo as ([Hno Hgo] & Hndo & Hfito).
    split; [split|split]; cbn; rewrite ?length_fmap; auto. }
  intros x0 Hx b' Hb'. cbn in Hb'.
  apply list_elem_of_fmap in Hb' as (bo & -> & Hbo). rewrite draw_x.
  destruct (birds_agents wo bo) as (a & Ha & <-); [apply Hwfo|exact Hbo|].
  assert (Hat : a ∈ agents wt).
  { eapply elem_of_sublist; [|exact Hag1]. rewrite <- Haga.
    eapply elem_of_sublist; [exact Ha|exact Hago]. }
  apply agents_birds, list_elem_of_lookup in Hat as [i Hi].
  pose proof (lookup_lt_Some _ _ _ Hi) as Hlt.
  destruct Hwf as ([Hn _] & _).
  destruct (lookup_lt_is_Some_2 (birds w) i) as [b Hb]; [lia|].
  destruct (lookup_lt_is_Some_2 (nets w) i) as [net Hnet]; [lia|].
  rewrite (Hbt i b net Hb Hnet) in Hi. injection Hi as <-.
  rewrite controlled_x. apply Hx. eapply list_elem_of_lookup_2; eauto.
Qed.


(** C4. A round of the loop on a well-formed world always completes, and
    [add_pipe] tells whether a pass event fired in it. If it did, the
    score goes up by exactly 1, exactly one pipe with [x = 600] is put at
    the end of the pipes that are kept, and the fitness of every agent
    still alive after the collision scan ends the round at its value from
    the start of the round plus 0.1 plus 5; if it did not, the score is
    unchanged, no pipe is added and those agents gain only the 0.1. The
    two sums are those the source computes, in binary64 and in this
    order: line 322 adds 0.1, line 359 adds 5 to the result. The flag
    being a boolean, the effects happen once however many pairs of pipe
    and agent set it. *)
Theorem pass_event_effects (h : Z) (w : World) (pipe : Pipe.t) :
  wf w -> pipes w !! choose_pipe_ind w = Some pipe ->
  exists w1 add_pipe rem w',
    tick_front w = Ok (w1, add_pipe, rem) /\
    tick_back h (w1, add_pipe, rem) = Ok w' /\
    score w' = score w + (if add_pipe then 1 else 0) /\
    pipes w' = remove_at 0 rem (pipes w1)
               ++ (if add_pipe then [Pipe.init 600 h] else []) /\
    Pipe.x (Pipe.init 600 h) = 600 /\
    length (pipes w1) = length (pipes w) /\
    (forall g f, g ∈ ge w1 -> fitness w !! g = Some f ->
       fitness w' !! g
       = Some (if add_pipe then (f + 0.1 + 5)%float
               else (f + 0.1)%float)).
Proof.
  intros Hwf Hpipe.
  destruct (round_spec h w pipe Hwf Hpipe)
    as (w1 & add_pipe & rem & w' & Ef & Eb & Hs & Hp & Hx & Hl & Hfit & _).
  exists w1, add_pipe, rem, w'. auto 10.
Qed.

(** A round that starts without a quit event, on a well-formed world
    with a pipe ahead, ends without raising: the loop either stops on an
    empty population or goes on with a well-formed world. *)
Lemma tick_completes (inp : TickInput) (w : World) (pipe : Pipe.t) :
  wf w -> pipes w !! choose_pipe_ind w = Some pipe ->
  existsb is_quit (events inp) = false ->
  exists r, tick inp w = Ok r /\
    match r with
    | Continue w' =>
        wf w' /\ (forall x0, same_x x0 w -> same_x x0 w') /\ birds w <> []
    | Break w' => w' = w /\ birds w = []
    end.
Proof.
  intros Hwf Hpipe Hq. unfold tick. rewrite Hq.
  destruct (birds w) as [|b bs] eqn:Hb.
  - exists (Break w). auto.
  - destruct (round_spec (drawn_height inp) w pipe Hwf Hpipe)
      as (w1 & add_pipe & rem & w' & Ef & Eb & _ & _ & _ & _ & _ & Hwf' & Hx).
    exists (Continue w'). rewrite Ef. cbn [mbind res_bind].
    rewrite Eb. cbn [mbind res_bind]. split; [reflexivity|].
    split; [exact Hwf'|]. split; [exact Hx|discriminate].
Qed.

End pass_event.

(** ** What the caller finds after the episode *)

Lemma keeps_keys_refl (w : World) : keeps_keys w w.
Proof. intros g Hg. exact Hg. Qed.

Lemma keeps_keys_trans (w1 w2 w3 : World) :
  keeps_keys w1 w2 -> keeps_keys w2 w3 -> keeps_keys w1 w3.
Proof. intros H12 H23 g Hg. apply H23, H12, Hg. Qed.

Lemma keeps_keys_same (w w' : World) :
  fitness w' = fitness w -> keeps_keys w w'.
Proof. intros E g Hg. rewrite E. exact Hg. Qed.

Tactic Notation "inv_bind" hyp(H) "as" ident(a) ident(Ha) :=
  apply bind_Ok in H as (a & Ha & H).

Lemma for_in_from_inv {St A : Type} (xs : St -> list A)
  (body : nat -> A -> St -> res St) (I : St -> Prop) :
  (forall i a s s', I s -> body i a s = Ok s' -> I s') ->
  forall fuel i s s', I s -> for_in_from xs body fuel i s = Ok s' -> I s'.
Proof.
  intros Hbody fuel. induction fuel as [|fuel IH]; intros i s s' Hs E.
  - discriminate.
  - cbn in E. destruct (xs s !! i) as [a|].
    + inv_bind E as s1 E1. eapply IH; [|exact E]. eapply Hbody; eauto.
    + injection E as <-. exact Hs.
Qed.

Lemma aug_fitness_keeps (op : float -> float) (x : nat) (w w' : World) :
  aug_fitness op x w = Ok w' -> keeps_keys w w'.
Proof.
  unfold aug_fitness. intros E. inv_bind E as g Eg. inv_bind E as f Ef.
  injection E as <-. intros g' Hg'. cbn.
  apply lookup_insert_is_Some.
  destruct (decide (g = g')); [left; auto|right; auto].
Qed.

Lemma pop_agent_fitness (x : nat) (w w' : World) :
  pop_agent x w = Ok w' -> fitness w' = fitness w.
Proof.
  unfold pop_agent. intros E.
  inv_bind E as bs Eb. inv_bind E as ns En. inv_bind E as gs Eg.
  injection E as <-. reflexivity.
Qed.

Section episode_facts.
Context `{Assets}.

Lemma think_keeps (pipe_ind : nat) (w w' : World) :
  think pipe_ind w = Ok w' -> keeps_keys w w'.
Proof.
  unfold think, for_in. intros E.
  apply (for_in_from_inv _ _ (keeps_keys w)) in E;
    [exact E| |apply keeps_keys_refl].
  intros i b s s' Hs Hb. eapply keeps_keys_trans; [exact Hs|].
  unfold think_body in Hb.
  inv_bind Hb as s1 E1. inv_bind Hb as net En. inv_bind Hb as pipe Ep.
  injection Hb as <-. apply aug_fitness_keeps in E1. exact E1.
Qed.

Lemma scan_body_keeps (i : nat) (bird : Bird.t) (s s' : ScanState) :
  scan_body i bird s = Ok s' -> keeps_keys s.1.1 s'.1.1.
Proof.
  destruct s as [[w pipe] add]. unfold scan_body. intros E.
  inv_bind E as w1 E1.
  assert (Hk : keeps_keys w w1).
  { destruct (Pipe.collide pipe bird).
    - inv_bind E1 as w2 E2. apply aug_fitness_keeps in E2.
      apply pop_agent_fitness in E1.
      eapply keeps_keys_trans; [exact E2|apply keeps_keys_same, E1].
    - injection E1 as <-. apply keeps_keys_refl. }
  destruct (_ && _); injection E as <-; exact Hk.
Qed.

Lemma scan_pipes_keeps (w w' : World) (add : bool) (rem : list nat) :
  scan_pipes w = Ok (w', add, rem) -> keeps_keys w w'.
Proof.
  unfold scan_pipes, for_in. intros E.
  apply (for_in_from_inv _ _
           (fun s : World * bool * list nat => keeps_keys w s.1.1))
    in E; [exact E| |apply keeps_keys_refl].
  intros k pipe [[w1 add1] rem1] s' Hs Hp.
  eapply keeps_keys_trans; [exact Hs|]. cbn [fst snd].
  unfold pipe_body in Hp. inv_bind Hp as s2 E2.
  destruct s2 as [[w2 pipe2] add2]. injection Hp as <-. cbn.
  unfold scan_birds, for_in in E2.
  apply (for_in_from_inv _ _ (fun s : ScanState => keeps_keys w1 s.1.1))
    in E2; [exact E2| |apply keeps_keys_refl].
  intros i b s s' Hs' Hb. eapply keeps_keys_trans; [exact Hs'|].
  eapply scan_body_keeps; eauto.
Qed.

Lemma award_keeps (h : Z) (w w' : World) :
  award h w = Ok w' -> keeps_keys w w'.
Proof.
  unfold award, for_in. intros E. inv_bind E as w1 E1. injection E as <-.
  apply (for_in_from_inv _ _ (keeps_keys w)) in E1;
    [exact E1| |intros g Hg; exact Hg].
  intros i g s s' Hs Hg. eapply keeps_keys_trans; [exact Hs|].
  unfold award_body in Hg. inv_bind Hg as f Ef. injection Hg as <-.
  intros g' Hg'. cbn. apply lookup_insert_is_Some.
  destruct (decide (g = g')); [left; auto|right; auto].
Qed.

Lemma oob_scan_fitness (w w' : World) :
  oob_scan w = Ok w' -> fitness w' = fitness w.
Proof.
  unfold oob_scan, for_in. intros E.
  apply (for_in_from_inv _ _ (fun s => fitness s = fitness w)) in E;
    [exact E| |reflexivity].
  intros i b s s' Hs Hb. unfold oob_body in Hb.
  destruct (_ || _).
  - apply pop_agent_fitness in Hb. congruence.
  - injection Hb as <-. exact Hs.
Qed.

Lemma tick_keeps (inp : TickInput) (w : World) (r : flow) :
  tick inp w = Ok r ->
  match r with
  | Continue w' => keeps_keys w w'
  | Break w' => w' = w /\ birds w = []
  end.
Proof.
  unfold tick. destruct (existsb _ _); [discriminate|].
  destruct (birds w) eqn:Hb.
  { intros [= <-]. auto. }
  intros E. inv_bind E as s Ef. inv_bind E as w' Eb. injection E as <-.
  destruct s as [[w1 add] rem].
  unfold tick_front in Ef. inv_bind Ef as wt Et.
  apply think_keeps in Et. apply scan_pipes_keeps in Ef.
  unfold tick_back in Eb. inv_bind Eb as wa Ea. inv_bind Eb as wo Eo.
  injection Eb as <-.
  assert (H3 : keeps_keys w1 wa).
  { destruct add; [eapply award_keeps; eauto|].
    injection Ea as <-. apply keeps_keys_refl. }
  apply oob_scan_fitness in Eo.
  intros g Hg. cbn. rewrite Eo. apply H3, Ef, Et, Hg.
Qed.

Lemma main_loop_keeps (inputs : list TickInput) (w w' : World) :
  main_loop inputs w = Ok w' -> keeps_keys w w' /\ birds w' = [].
Proof.
  revert w. induction inputs as [|inp inputs IH]; intros w E.
  - discriminate.
  - cbn in E. inv_bind E as r Er. apply tick_keeps in Er.
    destruct r as [w1|w1].
    + destruct (IH w1 E) as [Hk Hb]. split; [|exact Hb].
      eapply keeps_keys_trans; eauto.
    + injection E as <-. destruct Er as [-> Hb].
      split; [apply keeps_keys_refl|exact Hb].
Qed.

Lemma setup_body_fitness (create : ref -> Net) (w : World)
  (e : Z * ref) (g : ref) :
  is_Some (fitness w !! g) \/ g = e.2 ->
  is_Some (fitness (setup_body create w e) !! g).
Proof.
  destruct e as [k g']. cbn. intros Hg. apply lookup_insert_is_Some.
  destruct (decide (g' = g)); [left; auto|right].
  split; [auto|]. destruct Hg as [Hg|Hg]; [exact Hg|congruence].
Qed.

Lemma setup_fitness (create : ref -> Net) (genomes : list (Z * ref))
  (store : gmap ref float) (h0 : Z) (g : ref) :
  g ∈ genomes.*2 -> is_Some (fitness (setup create genomes store h0) !! g).
Proof.
  unfold setup. cbn [set_pipes fitness].
  generalize (mkWorld [] [] [] store [] (Base.init 730) 0).
  induction genomes as [|e genomes IH]; intros w Hg.
  - apply elem_of_nil in Hg. contradiction.
  - cbn [foldl]. cbn in Hg. apply elem_of_cons in Hg as [->|Hg].
    + clear IH.
      assert (Hs : is_Some (fitness (setup_body create w e) !! e.2))
        by (apply setup_body_fitness; auto).
      revert Hs. generalize (setup_body create w e).
      induction genomes as [|e' genomes IH]; intros w' Hs; [exact Hs|].
      cbn [foldl]. apply IH, setup_body_fitness. auto.
    + apply IH, Hg.
Qed.

(** C7, as the code has it. When a round starts with an empty population
    and no quit event, the loop ends there and the episode returns with
    the world as it is; whenever the episode returns, the population is
    empty and every genome it was given holds a fitness, also those whose
    agent was removed on the way. When a round starts with a quit event
    pending, nothing of the round is run and the call does not return:
    [quit()] raises [SystemExit]. *)
Theorem episode_end (create : ref -> Net) (genomes : list (Z * ref))
  (store : gmap ref float) (h0 : Z) (inputs : list TickInput) :
  (forall w', eval_genomes create genomes store h0 inputs = Ok w' ->
     birds w' = [] /\
     forall g, g ∈ genomes.*2 -> is_Some (fitness w' !! g)) /\
  (forall inp rest w, existsb is_quit (events inp) = false ->
     birds w = [] -> main_loop (inp :: rest) w = Ok w) /\
  (forall inp rest w, existsb is_quit (events inp) = true ->
     main_loop (inp :: rest) w = Raise SystemExit).
Proof.
  split; [|split].
  - intros w' E. unfold eval_genomes in E.
    apply main_loop_keeps in E as [Hk Hb]. split; [exact Hb|].
    intros g Hg. apply Hk, setup_fitness, Hg.
  - intros inp rest w Hq Hb. cbn. unfold tick. rewrite Hq, Hb. reflexivity.
  - intros inp rest w Hq. cbn. unfold tick. rewrite Hq. reflexivity.
Qed.

End episode_facts.

(** ** Worked examples *)

Lemma wf_crowd (px : Z) : wf (crowd px).
Proof.
  split; [split; reflexivity|]. split.
  - cbn. apply (bool_decide_unpack _). reflexivity.
  - intros g Hg. cbn in Hg.
    repeat (apply elem_of_cons in Hg as [->|Hg]); try (eexists; reflexivity).
    apply elem_of_nil in Hg. contradiction.
Qed.

Lemma wf_sunk : wf sunk.
Proof. exact (wf_crowd 600). Qed.

(** ** Agents the scans pass over *)

(** C1 fails on the code. Three agents overlap the pipe when the
    collision scan starts, and the scan yields the first and the third
    only: the second has moved into the place of the first when the
    iterator steps on, is never tested, and is the one agent left in the
    population. The scan for agents out of bounds passes over the second
    of three sunk agents in the same way. *)
Theorem scans_skip_agent_after_removal :
  let p := Pipe.mk 295 50 (50 - 640) 250 false in
  forallb (Pipe.collide (H := rect_assets) p) (birds (crowd 295)) = true /\
  visits (fun s : ScanState => birds s.1.1) (scan_body (H := rect_assets))
         4 0 (crowd 295, p, false)
  = [Bird.init 230 400; Bird.init 230 420] /\
  match scan_birds (H := rect_assets) (crowd 295, p, false) with
  | Ok (w', _, _) =>
      birds w' = [Bird.init 230 410] /\ ge w' = [1%nat] /\
      fitness w' !! 1%nat = Some 0%float
  | _ => False
  end /\
  forallb (out_of_bounds (H := rect_assets)) (birds sunk) = true /\
  visits birds (oob_body (H := rect_assets)) 4 0 sunk
  = [Bird.init 230 700; Bird.init 230 720] /\
  alive (oob_scan (H := rect_assets) sunk) = Some [1%nat].
Proof.
  vm_compute. repeat split; reflexivity.
Qed.

(** C6 fails on the code, by the same passing over. Two genomes with the
    same controller fly side by side; in round 62 both overlap the pipe
    when the collision scan starts, and only the first is removed. The
    second ends the round alive and unpunished at the fitness 62
    additions of 0.1 give, 6.199999999999994, is moved and rewarded once
    more in round 63, and is removed only then: it ends with
    5.299999999999994 where its twin has 5.199999999999994. *)
Theorem overlapping_agent_survives_round :
  match at_scan (H := rect_assets) (replicate 61 calm) (twins hover) with
  | Ok wt =>
      ge wt = [0; 1]%nat /\
      forallb (fun p => forallb (Pipe.collide (H := rect_assets) p)
                                (birds wt)) (pipes wt) = true /\
      match scan_pipes (H := rect_assets) wt with
      | Ok (w1, _, _) => ge w1 = [1%nat]
      | _ => False
      end
  | _ => False
  end /\
  alive (rounds (H := rect_assets) (replicate 62 calm) (twins hover))
  = Some [1%nat] /\
  fitness_of (rounds (H := rect_assets) (replicate 62 calm) (twins hover))
             1%nat = Some 6.199999999999994%float /\
  alive (rounds (H := rect_assets) (replicate 63 calm) (twins hover))
  = Some [] /\
  fitness_of (eval_genomes (H := rect_assets) (fun _ => hover)
                [(1, 0%nat); (2, 1%nat)] ∅ 50 (replicate 64 calm)) 0%nat
  = Some 5.199999999999994%float /\
  fitness_of (eval_genomes (H := rect_assets) (fun _ => hover)
                [(1, 0%nat); (2, 1%nat)] ∅ 50 (replicate 64 calm)) 1%nat
  = Some 5.299999999999994%float.
Proof.
  vm_compute. repeat split; reflexivity.
Qed.

(** ** What the controller is shown *)

Section observation_facts.
Context `{Assets}.

(** C2, as the code has it. In every round each agent of a well-formed
    population is moved and then steered by what its own controller
    answers to the tuple made of its new [y], the absolute value of the
    difference between that [y] and the top of the gap of the pipe ahead,
    and the absolute value of the difference between that [y] and the
    bottom of the gap. The second and third components are never
    negative: they do not tell above from below. *)
Theorem observation_is_unsigned (w : World) (pipe : Pipe.t) (x : nat)
  (b : Bird.t) (net : Net) :
  wf w -> pipes w !! choose_pipe_ind w = Some pipe ->
  birds w !! x = Some b -> nets w !! x = Some net ->
  let b' := Bird.move b in
  let o := observation b' pipe in
  exists w', think (choose_pipe_ind w) w = Ok w' /\
    birds w' !! x
    = Some (if Qlt_bool (1 # 2) (net o) then Bird.jump b' else b') /\
    o.1.1 = Bird.y b' /\
    o.1.2 = Qabs (Bird.y b' - inject_Z (Pipe.height pipe)) /\
    o.2 = Qabs (Bird.y b' - inject_Z (Pipe.bottom pipe)) /\
    (0 <= o.1.2)%Q /\ (0 <= o.2)%Q.
Proof.
  intros Hwf Hpipe Hb Hn b' o.
  destruct (think_spec _ pipe w Hwf Hpipe)
    as (w' & E & _ & _ & _ & _ & _ & _ & _ & Hbirds & _).
  exists w'. split; [exact E|].
  split; [exact (Hbirds x b net Hb Hn)|].
  repeat split; apply Qabs_nonneg.
Qed.

End observation_facts.

Lemma observation_is_unsigned_witness :
  wf (crowd 295) /\
  exists w', think (choose_pipe_ind (H := rect_assets) (crowd 295))
                   (crowd 295) = Ok w' /\
    birds w' !! 0%nat
    = Some (Bird.jump (Bird.move (Bird.init 230 400))).
Proof.
  pose proof (wf_crowd 295) as Hwf.
  split; [exact Hwf|].
  destruct (observation_is_unsigned (H := rect_assets) (crowd 295)
              (Pipe.mk 295 50 (50 - 640) 250 false) 0
              (Bird.init 230 400) hover Hwf eq_refl eq_refl eq_refl)
    as (w' & E & Hb & _).
  exists w'. split; [exact E|]. exact Hb.
Defined.

(** An agent at 351.5 in front of a gap from 300 to 500 is shown 51.5 and
    148.5: whichever way a signed distance is taken, one of the two would
    be negative. *)
Lemma observation_drops_sign :
  let b := Bird.move (Bird.init 230 350) in
  let p := Pipe.init (H := rect_assets) 600 300 in
  let o := observation b p in
  (o.1.2 == 103 # 2)%Q /\ (o.2 == 297 # 2)%Q /\
  ~ ((o.1.2 == inject_Z (Pipe.height p) - Bird.y b)%Q /\
     (o.2 == inject_Z (Pipe.bottom p) - Bird.y b)%Q) /\
  ~ ((o.1.2 == Bird.y b - inject_Z (Pipe.height p))%Q /\
     (o.2 == Bird.y b - inject_Z (Pipe.bottom p))%Q).
Proof.
  vm_compute. repeat split; try reflexivity.
  - intros [E _]. discriminate E.
  - intros [_ E]. discriminate E.
Qed.

(** ** The pass flag *)

Section pass_flag.
Context `{Assets}.

(** C3, as the code has it. When all agents stand at the same [x0], the
    scan of the population for one pipe sets the flag of the pipe exactly
    when the flag was not set, the population was not empty when the scan
    started, and the left edge of the pipe is left of [x0]; the width of
    the pipe plays no part. [add_pipe] is raised exactly when the flag is
    set by this scan. *)
Theorem pass_flag_on_left_edge (w : World) (pipe : Pipe.t) (add : bool)
  (x0 : Z) :
  wf w -> same_x x0 w ->
  exists w' pipe' add',
    scan_birds (w, pipe, add) = Ok (w', pipe', add') /\
    (Pipe.passed pipe' = true <->
     Pipe.passed pipe = true \/ (birds w <> [] /\ Pipe.x pipe < x0)) /\
    (add' = true <->
     add = true \/
     (Pipe.passed pipe = false /\ birds w <> [] /\ Pipe.x pipe < x0)) /\
    Pipe.x pipe' = Pipe.x pipe.
Proof.
  intros Hwf Hsame.
  destruct (scan_birds_spec w w pipe add (scan_rel_refl w Hwf))
    as (w' & pipe' & add' & E & _ & _ & _ & Hfire).
  destruct (Hfire x0 Hsame) as [-> ->].
  exists w'. eexists. eexists. split; [exact E|].
  unfold fires.
  destruct (decide (birds w = [])) as [Hb|Hb].
  - rewrite bool_decide_eq_false_2 by auto. cbn [andb].
    rewrite orb_false_r. repeat split; tauto.
  - rewrite bool_decide_eq_true_2 by auto. cbn [andb].
    destruct (Pipe.passed pipe) eqn:Hp; cbn [negb andb].
    + rewrite orb_false_r.
      repeat split; intuition (first [congruence | auto]).
    + destruct (Z.ltb_spec (Pipe.x pipe) x0) as [Hx|Hx].
      * rewrite orb_true_r. repeat split; auto.
      * rewrite orb_false_r.
        repeat split; intuition (first [congruence | lia | auto]).
Qed.

End pass_flag.

Lemma same_x_crowd (px : Z) : same_x 230 (crowd px).
Proof.
  intros b Hb. cbn in Hb.
  repeat (apply elem_of_cons in Hb as [->|Hb]); try reflexivity.
  apply elem_of_nil in Hb. contradiction.
Qed.

Lemma pass_flag_on_left_edge_witness :
  wf (crowd 225) /\ same_x 230 (crowd 225) /\
  exists w' pipe',
    scan_birds (H := rect_assets)
      (crowd 225, Pipe.mk 225 50 (50 - 640) 250 false, false)
    = Ok (w', pipe', true) /\ Pipe.passed pipe' = true.
Proof.
  pose proof (wf_crowd 225) as Hwf.
  pose proof (same_x_crowd 225) as Hsame.
  split; [exact Hwf|]. split; [exact Hsame|].
  destruct (pass_flag_on_left_edge (H := rect_assets) (crowd 225)
              (Pipe.mk 225 50 (50 - 640) 250 false) false 230 Hwf Hsame)
    as (w' & pipe' & add' & E & Hp & Ha & _).
  assert (Hadd : add' = true).
  { apply Ha. right. split; [reflexivity|]. split; [discriminate|].
    cbn. lia. }
  assert (Hpassed : Pipe.passed pipe' = true).
  { apply Hp. right. split; [discriminate|]. cbn. lia. }
  subst add'. exists w', pipe'. split; [exact E|exact Hpassed].
Defined.

(** A single agent overlaps a pipe whose left edge, at 225, is left of
    the agent while its right edge, at 329, is not. The scan removes the
    agent, and sets the flag and [add_pipe] all the same. *)
Lemma pass_flag_ignores_right_edge :
  let p := Pipe.mk 225 50 (50 - 640) 250 false in
  let w := set_ge [0%nat] (set_nets [hover]
             (set_birds [Bird.init 230 400] (crowd 225))) in
  ~ (Pipe.x p + pipe_img_width (Assets := rect_assets) < 230) /\
  Pipe.collide (H := rect_assets) p (Bird.init 230 400) = true /\
  match scan_birds (H := rect_assets) (w, p, false) with
  | Ok (w', p', add_pipe) =>
      birds w' = [] /\ Pipe.passed p' = true /\ add_pipe = true
  | _ => False
  end.
Proof.
  vm_compute. repeat split; try reflexivity. intros E. discriminate E.
Qed.

(** ** Removal without penalty *)

Section bounds.
Context `{Assets}.

(** C10. The scan for agents out of bounds on a well-formed world always
    completes and leaves the fitness store exactly as it was. All it does
    to the population is to take agents out, each together with its
    controller and its genome; every agent it takes out is out of bounds.
    The collision scan, in contrast, leaves every agent it takes out with
    1 less. *)
Theorem out_of_bounds_removal_keeps_fitness (w : World) (pipe : Pipe.t)
  (add : bool) :
  wf w ->
  (exists w', oob_scan w = Ok w' /\
     fitness w' = fitness w /\
     aligned w' /\
     agents w' `sublist_of` agents w /\
     (forall a, a ∈ agents w -> out_of_bounds a.1.1 = false ->
        a ∈ agents w') /\
     pipes w' = pipes w /\ score w' = score w) /\
  (exists w1 pipe1 add1,
     scan_birds (w, pipe, add) = Ok (w1, pipe1, add1) /\
     forall g, g ∈ ge w -> g ∉ ge w1 ->
       exists f, fitness w !! g = Some f /\
                 fitness w1 !! g = Some (f - 1)%float).
Proof.
  intros Hwf. split.
  - destruct (oob_scan_spec w Hwf)
      as (w' & E & Hwf' & Hf & Hp & _ & Hs & Hag & _ & Hstay).
    exists w'. repeat (split; [first [assumption | apply Hwf']|]).
    exact Hs.
  - destruct (scan_birds_spec w w pipe add (scan_rel_refl w Hwf))
      as (w1 & pipe1 & add1 & E & Hrel & _).
    exists w1, pipe1, add1. split; [exact E|]. apply Hrel.
Qed.

End bounds.

Lemma out_of_bounds_removal_keeps_fitness_witness :
  wf sunk /\
  exists w', oob_scan (H := rect_assets) sunk = Ok w' /\
             fitness w' = fitness sunk.
Proof.
  split; [exact wf_sunk|].
  destruct (out_of_bounds_removal_keeps_fitness (H := rect_assets) sunk
              (Pipe.mk 600 50 (50 - 640) 250 false) false wf_sunk)
    as [(w' & E & Hf & _) _].
  exists w'. split; [exact E|exact Hf].
Defined.

(** ** A round with a pass event *)

Lemma pass_event_effects_witness :
  wf (crowd 225) /\
  match tick_front (H := rect_assets) (crowd 225) with
  | Ok (w1, add_pipe, _) => add_pipe = true /\ ge w1 = [1%nat]
  | _ => False
  end /\
  exists w1 add_pipe rem w',
    tick_front (H := rect_assets) (crowd 225) = Ok (w1, add_pipe, rem) /\
    tick_back (H := rect_assets) 50 (w1, add_pipe, rem) = Ok w' /\
    score w' = 1 /\
    fitness w' !! 1%nat = Some 5.1%float.
Proof.
  pose proof (wf_crowd 225) as Hwf.
  assert (Hc : match tick_front (H := rect_assets) (crowd 225) with
               | Ok (w1, add_pipe, _) => add_pipe = true /\ ge w1 = [1%nat]
               | _ => False
               end) by (vm_compute; split; reflexivity).
  split; [exact Hwf|]. split; [exact Hc|].
  destruct (pass_event_effects (H := rect_assets) 50 (crowd 225)
              (Pipe.mk 225 50 (50 - 640) 250 false) Hwf eq_refl)
    as (w1 & add_pipe & rem & w' & Ef & Eb & Hs & _ & _ & _ & Hfit).
  exists w1, add_pipe, rem, w'. split; [exact Ef|]. split; [exact Eb|].
  rewrite Ef in Hc. destruct Hc as [-> Hg].
  split; [exact Hs|].
  apply (Hfit 1%nat 0%float); [|reflexivity].
  rewrite Hg. apply list_elem_of_singleton. reflexivity.
Defined.

(** ** The end of the episode, worked *)

Lemma episode_end_witness :
  existsb is_quit (events calm) = false /\
  existsb is_quit (events (mkInput [OtherEvent; QUIT] 50)) = true /\
  (forall w', eval_genomes (H := rect_assets) (fun _ => never_jump)
                [(1, 0%nat); (2, 1%nat)] ∅ 50 (replicate 30 calm) = Ok w' ->
     birds w' = [] /\
     forall g, g ∈ [0; 1]%nat -> is_Some (fitness w' !! g)) /\
  main_loop (H := rect_assets) [calm] (set_birds [] (twins hover))
  = Ok (set_birds [] (twins hover)) /\
  main_loop (H := rect_assets) [mkInput [OtherEvent; QUIT] 50]
            (twins hover) = Raise SystemExit.
Proof.
  assert (H1 : existsb is_quit (events calm) = false) by reflexivity.
  assert (H2 : existsb is_quit (events (mkInput [OtherEvent; QUIT] 50))
               = true) by reflexivity.
  destruct (episode_end (H := rect_assets) (fun _ => never_jump)
              [(1, 0%nat); (2, 1%nat)] ∅ 50 (replicate 30 calm))
    as (Hret & Hempty & Hquit).
  split; [exact H1|]. split; [exact H2|]. split; [exact Hret|].
  split.
  - exact (Hempty calm [] (set_birds [] (twins hover)) H1 eq_refl).
  - exact (Hquit (mkInput [OtherEvent; QUIT] 50) [] (twins hover) H2).
Defined.

(** With a quit event pending in the first round, the episode of two
    genomes never returns to its caller: no fitness is handed back. The
    same episode left alone returns with both. *)
Lemma quit_returns_nothing :
  eval_genomes (H := rect_assets) (fun _ => never_jump)
    [(1, 0%nat); (2, 1%nat)] ∅ 50 [mkInput [QUIT] 50]
  = Raise SystemExit /\
  (forall w, eval_genomes (H := rect_assets) (fun _ => never_jump)
               [(1, 0%nat); (2, 1%nat)] ∅ 50 [mkInput [QUIT] 50]
             <> Ok w) /\
  fitness_of (eval_genomes (H := rect_assets) (fun _ => never_jump)
                [(1, 0%nat); (2, 1%nat)] ∅ 50 (replicate 30 calm)) 0%nat
  = Some 2.3000000000000007%float.
Proof.
  assert (E : eval_genomes (H := rect_assets) (fun _ => never_jump)
                [(1, 0%nat); (2, 1%nat)] ∅ 50 [mkInput [QUIT] 50]
              = Raise SystemExit) by reflexivity.
  split; [exact E|]. split.
  - intros w Hw. rewrite E in Hw. discriminate Hw.
  - vm_compute. reflexivity.
Qed.

(** ** The population that [eval_genomes] builds *)

Section setup_facts.
Context `{Assets}.

Lemma setup_body_wf (create : ref -> Net) (w : World) (e : Z * ref) :
  wf w -> e.2 ∉ ge w -> wf (setup_body create w e).
Proof.
  destruct e as [k g]. intros ([Hn Hg] & Hnd & Hf) Hnin.
  split; [split|split]; cbn in *.
  - rewrite !length_app. cbn. lia.
  - rewrite !length_app. cbn. lia.
  - apply NoDup_app. split; [exact Hnd|]. split.
    + intros x Hx Hx'. apply list_elem_of_singleton in Hx'. congruence.
    + apply NoDup_singleton.
  - intros g' Hg'. apply lookup_insert_is_Some.
    destruct (decide (g = g')); [left; auto|right]. split; [auto|].
    apply elem_of_app in Hg' as [Hg'|Hg']; [auto|].
    apply list_elem_of_singleton in Hg'. congruence.
Qed.

Lemma setup_body_ge (create : ref -> Net) (w : World) (e : Z * ref) :
  ge (setup_body create w e) = ge w ++ [e.2].
Proof. destruct e. reflexivity. Qed.

(** Handed genomes that are all different objects, [eval_genomes] starts
    the loop on a well-formed world. *)
Lemma setup_wf (create : ref -> Net) (genomes : list (Z * ref))
  (store : gmap ref float) (h0 : Z) :
  NoDup genomes.*2 -> wf (setup create genomes store h0).
Proof.
  intros Hnd. unfold setup.
  assert (Hgen : forall w, wf w -> NoDup (ge w ++ genomes.*2) ->
                   wf (foldl (setup_body create) w genomes)).
  { clear Hnd. induction genomes as [|e genomes IH]; intros w Hw Hd.
    - exact Hw.
    - cbn [foldl]. cbn in Hd. apply NoDup_app in Hd as (Hd1 & Hd2 & Hd3).
      apply IH.
      + apply setup_body_wf; [exact Hw|].
        intros Hin. apply (Hd2 _ Hin). left.
      + rewrite setup_body_ge, <- app_assoc. cbn.
        apply NoDup_app. split; [exact Hd1|]. split; [exact Hd2|exact Hd3]. }
  apply (Hgen (mkWorld [] [] [] store [] (Base.init 730) 0)).
  - split; [split; reflexivity|]. split; [apply NoDup_nil; exact I|].
    intros g Hg. apply elem_of_nil in Hg. contradiction.
  - exact Hnd.
Qed.

End setup_facts.

(** ** The worlds an episode goes through *)

Lemma aug_fitness_pipes (op : float -> float) (x : nat) (w w' : World) :
  aug_fitness op x w = Ok w' -> pipes w' = pipes w.
Proof.
  unfold aug_fitness. intros E. inv_bind E as g Eg. inv_bind E as f Ef.
  injection E as <-. reflexivity.
Qed.

Section reach.
Context `{Assets}.

(** A round that gets past the controllers found a pipe ahead. *)
Lemma tick_front_pipe (w : World) (s : World * bool * list nat) :
  birds w <> [] -> tick_front w = Ok s ->
  exists pipe, pipes w !! choose_pipe_ind w = Some pipe.
Proof.
  intros Hb E. unfold tick_front in E. inv_bind E as wt Et.
  unfold think, for_in in Et.
  destruct (birds w) as [|b bs] eqn:Hbw; [contradiction|].
  cbn [length for_in_from] in Et. rewrite Hbw in Et. cbn [lookup] in Et.
  change ((b :: bs) !! 0%nat) with (Some b) in Et. cbn iota in Et.
  inv_bind Et as w2 E2. unfold think_body in E2.
  inv_bind E2 as w3 E3. inv_bind E2 as net En. inv_bind E2 as pipe Ep.
  apply aug_fitness_pipes in E3. unfold index in Ep. rewrite E3 in Ep.
  destruct (pipes w !! choose_pipe_ind w) as [p|]; [|discriminate].
  exists p. reflexivity.
Qed.

Lemma tick_keeps_wf (x0 : Z) (inp : TickInput) (w : World) (r : flow) :
  wf w -> same_x x0 w -> tick inp w = Ok r ->
  match r with
  | Continue w' | Break w' => wf w' /\ same_x x0 w'
  end.
Proof.
  intros Hwf Hx E.
  assert (Hq : existsb is_quit (events inp) = false).
  { unfold tick in E. destruct (existsb _ _); [discriminate|reflexivity]. }
  destruct (birds w) as [|b bs] eqn:Hb.
  - unfold tick in E. rewrite Hq, Hb in E. injection E as <-. auto.
  - assert (Hp : exists pipe, pipes w !! choose_pipe_ind w = Some pipe).
    { unfold tick in E. rewrite Hq, Hb in E. inv_bind E as s Es.
      apply (tick_front_pipe w s); [rewrite Hb; discriminate|exact Es]. }
    destruct Hp as [pipe Hp].
    destruct (tick_completes inp w pipe Hwf Hp Hq) as (r' & E' & Hr').
    rewrite E in E'. injection E' as <-.
    destruct r as [w'|w'].
    + destruct Hr' as (Hwf' & Hx' & _). auto.
    + destruct Hr' as [-> _]. auto.
Qed.

Lemma rounds_keep_wf (x0 : Z) (inputs : list TickInput) (w w' : World) :
  wf w -> same_x x0 w -> rounds inputs w = Ok w' ->
  wf w' /\ same_x x0 w'.
Proof.
  revert w. induction inputs as [|inp inputs IH]; intros w Hwf Hx E.
  - injection E as <-. auto.
  - cbn in E. inv_bind E as r Er.
    pose proof (tick_keeps_wf x0 inp w r Hwf Hx Er) as Hr.
    destruct r as [w1|w1].
    + destruct Hr as [Hwf1 Hx1]. exact (IH w1 Hwf1 Hx1 E).
    + injection E as <-. exact Hr.
Qed.

Lemma setup_same_x (create : ref -> Net) (genomes : list (Z * ref))
  (store : gmap ref float) (h0 : Z) :
  same_x 230 (setup create genomes store h0).
Proof.
  unfold setup, same_x. cbn [set_pipes birds].
  assert (Hgen : forall w, (forall b, b ∈ birds w -> Bird.x b = 230) ->
            forall b, b ∈ birds (foldl (setup_body create) w genomes) ->
                      Bird.x b = 230).
  { induction genomes as [|e genomes IH]; intros w Hw; [exact Hw|].
    cbn [foldl]. apply IH. destruct e as [k g]. cbn.
    intros b Hb. apply elem_of_app in Hb as [Hb|Hb]; [auto|].
    apply list_elem_of_singleton in Hb. subst b. reflexivity. }
  apply Hgen. cbn. intros b Hb. apply elem_of_nil in Hb. contradiction.
Qed.

(** Every world that an episode on distinct genomes goes through is
    well formed and has all its agents at [x = 230]: the properties above
    that ask for this hold in every round of every episode. *)
Lemma episode_worlds_wf (create : ref -> Net) (genomes : list (Z * ref))
  (store : gmap ref float) (h0 : Z) (inputs : list TickInput) (w : World) :
  NoDup genomes.*2 ->
  rounds inputs (setup create genomes store h0) = Ok w ->
  wf w /\ same_x 230 w.
Proof.
  intros Hnd E.
  apply (rounds_keep_wf 230 inputs (setup create genomes store h0));
    [apply setup_wf, Hnd|apply setup_same_x|exact E].
Qed.

End reach.

(** * Further properties *)

(** ** Agents under any sequence of calls *)

Lemma agent_inv_init (x0 y0 : Z) : agent_inv x0 (Bird.init x0 y0).
Proof. unfold agent_inv. cbn. repeat split; auto; lia. Qed.

Lemma agent_inv_draw (x0 : Z) (b : Bird.t) :
  agent_inv x0 b -> agent_inv x0 (Bird.draw b).
Proof.
  intros (Hx & Hv & Ht & Hc & Hi). unfold agent_inv.
  rewrite draw_x. split; [exact Hx|].
  unfold Bird.draw, Bird.ANIMATION_TIME.
  repeat match goal with
         | |- context [?a <? ?b] => destruct (Z.ltb_spec a b)
         end;
    destruct (Bird.tilt b <=? -80); cbn; repeat split; auto; lia.
Qed.

Lemma agent_inv_op (x0 : Z) (b : Bird.t) (o : bird_op) :
  agent_inv x0 b -> agent_inv x0 (apply_op b o).
Proof.
  intros Hb. destruct o; [| |apply agent_inv_draw, Hb].
  - destruct Hb as (Hx & Hv & Ht & Hc & Hi).
    unfold agent_inv. cbn. repeat split; auto; lia.
  - destruct Hb as (Hx & Hv & Ht & Hc & Hi).
    unfold agent_inv. cbn. repeat split; auto; lia.
Qed.

Lemma agent_inv_run (x0 : Z) (os : list bird_op) (b : Bird.t) :
  agent_inv x0 b -> agent_inv x0 (run_ops b os).
Proof.
  revert b. induction os as [|o os IH]; intros b Hb; [exact Hb|].
  apply IH, agent_inv_op, Hb.
Qed.

(** The kinematic value [v t + 1.5 t^2] for the two velocities an agent
    can have. *)
Lemma raw_ge_at_rest (t : Z) :
  (0 <= 0 * inject_Z t + (3 # 2) * (inject_Z t * inject_Z t))%Q.
Proof.
  rewrite <- inject_Z_mult.
  assert (H : (0 <= inject_Z (t * t))%Q).
  { change 0%Q with (inject_Z 0). rewrite <- Zle_Qle. nia. }
  lra.
Qed.

Lemma raw_ge_after_jump (t : Z) :
  (- 18 <= - (21 # 2) * inject_Z t + (3 # 2) * (inject_Z t * inject_Z t))%Q.
Proof.
  assert (H : (inject_Z 0 <= inject_Z (t * t - 7 * t + 12))%Q).
  { rewrite <- Zle_Qle.
    assert (Hc : t <= 3 \/ 4 <= t) by lia. destruct Hc; nia. }
  rewrite inject_Z_plus in H. unfold Z.sub in H.
  rewrite inject_Z_plus, inject_Z_opp, !inject_Z_mult in H.
  change (inject_Z 0) with 0%Q in H. change (inject_Z 7) with 7%Q in H.
  change (inject_Z 12) with 12%Q in H. lra.
Qed.

Lemma spec_displacement_ge (v : Q) (t : Z) (lo : Q) :
  (lo <= 0)%Q ->
  (lo <= v * inject_Z t + (3 # 2) * (inject_Z t * inject_Z t))%Q ->
  (lo - 2 <= Bird.spec_displacement v t)%Q.
Proof.
  intros Hlo Hraw. unfold Bird.spec_displacement. cbv zeta.
  set (r := (v * inject_Z t + (3 # 2) * (inject_Z t * inject_Z t))%Q) in *.
  destruct (Q.min_spec r 16) as [[? Hm]|[? Hm]];
    destruct (Qlt_le_dec (Qmin r 16) 0); lra.
Qed.

(** X1. Whatever sequence of jumps, moves and draws is applied to an
    agent created at [x0], the agent is still at [x0], and its next move
    changes its [y] by the displacement [d] with [-20 <= d <= 16]: it
    can rise at most 20 and fall at most 16 in one round. *)
Theorem agent_step_bounded (x0 y0 : Z) (os : list bird_op) :
  let b := run_ops (Bird.init x0 y0) os in
  let d := Bird.displacement (Bird.velocity b) (Bird.tick_count b + 1) in
  Bird.x b = x0 /\ Bird.x (Bird.move b) = x0 /\
  Bird.y (Bird.move b) = (Bird.y b + d)%Q /\
  (- 20 <= d)%Q /\ (d <= 16)%Q.
Proof.
  intros b d.
  destruct (agent_inv_run x0 os _ (agent_inv_init x0 y0))
    as (Hx & Hv & Ht & _ & _).
  fold b in Hx, Hv, Ht.
  split; [exact Hx|]. split; [exact Hx|]. split; [reflexivity|].
  unfold d. rewrite displacement_refines.
  split; [|apply spec_displacement_le_16].
  destruct Hv as [-> | ->].
  - pose proof (spec_displacement_ge 0 (Bird.tick_count b + 1) 0
                  ltac:(lra) (raw_ge_at_rest _)).
    lra.
  - pose proof (spec_displacement_ge (- (21 # 2)) (Bird.tick_count b + 1)
                  (- 18) ltac:(lra) (raw_ge_after_jump _)).
    lra.
Qed.

(** X2. From the ninth move after its last jump (or its creation) on, an
    agent falls by exactly 16 in every move: the clamp is its terminal
    speed. *)
Theorem agent_terminal_fall (x0 y0 : Z) (os : list bird_op) :
  let b := run_ops (Bird.init x0 y0) os in
  8 <= Bird.tick_count b ->
  Bird.y (Bird.move b) = (Bird.y b + 16)%Q.
Proof.
  intros b Ht.
  destruct (agent_inv_run x0 os _ (agent_inv_init x0 y0))
    as (_ & Hv & _ & _ & _).
  fold b in Hv.
  unfold Bird.move. cbn [Bird.y]. f_equal.
  unfold Bird.displacement.
  set (t := Bird.tick_count b + 1) in *.
  assert (Hraw : (16 <= Bird.velocity b * inject_Z t
                        + (3 # 2) * inject_Z (t ^ 2))%Q).
  { rewrite displacement_raw_eq.
    assert (H81 : (inject_Z 9 <= inject_Z t)%Q)
      by (rewrite <- Zle_Qle; lia).
    change (inject_Z 9) with 9%Q in H81.
    set (q := inject_Z t) in *. clearbody q.
    destruct Hv as [-> | ->]; nra. }
  apply Qle_bool_iff in Hraw. rewrite Hraw. reflexivity.
Qed.

Lemma agent_terminal_fall_witness :
  8 <= Bird.tick_count (run_ops (Bird.init 230 350) (replicate 8 OpMove)) /\
  Bird.y (Bird.move (run_ops (Bird.init 230 350) (replicate 8 OpMove)))
  = (Bird.y (run_ops (Bird.init 230 350) (replicate 8 OpMove)) + 16)%Q.
Proof.
  assert (H : 8 <= Bird.tick_count
                     (run_ops (Bird.init 230 350) (replicate 8 OpMove)))
    by (vm_compute; discriminate).
  split; [exact H|].
  exact (agent_terminal_fall 230 350 (replicate 8 OpMove) H).
Defined.

(** ** The wing animation *)

Lemma draw_step (b : Bird.t) :
  -80 < Bird.tilt b -> 0 <= Bird.img_count b <= 19 ->
  Bird.img_count (Bird.draw b) = (Bird.img_count b + 1) mod 20 /\
  Bird.img (Bird.draw b) = wing ((Bird.img_count b + 1) mod 20) /\
  Bird.tilt (Bird.draw b) = Bird.tilt b.
Proof.
  intros Ht Hc.
  assert (Hd : (Bird.tilt b <=? -80) = false) by (apply Z.leb_gt; lia).
  unfold Bird.draw, Bird.ANIMATION_TIME. rewrite Hd.
  destruct (decide (Bird.img_count b = 19)) as [E|E].
  - rewrite E. repeat split; reflexivity.
  - rewrite (Z.mod_small (Bird.img_count b + 1) 20) by lia.
    unfold wing.
    repeat match goal with
           | |- context [?a <? ?b] => destruct (Z.ltb_spec a b)
           end; cbn; repeat split; auto; lia.
Qed.

Lemma draw_iter (b : Bird.t) (k : nat) :
  -80 < Bird.tilt b -> 0 <= Bird.img_count b <= 19 ->
  Bird.img_count (Nat.iter k Bird.draw b)
  = (Bird.img_count b + Z.of_nat k) mod 20 /\
  Bird.tilt (Nat.iter k Bird.draw b) = Bird.tilt b.
Proof.
  intros Ht Hc. induction k as [|k [IHc IHt]].
  - cbn. rewrite Z.add_0_r, Z.mod_small by lia. auto.
  - change (Nat.iter (S k) Bird.draw b)
      with (Bird.draw (Nat.iter k Bird.draw b)).
    destruct (draw_step (Nat.iter k Bird.draw b)) as (Ec & _ & Et).
    { rewrite IHt. exact Ht. }
    { rewrite IHc. pose proof (Z.mod_pos_bound
        (Bird.img_count b + Z.of_nat k) 20). lia. }
    rewrite Ec, Et, IHc, IHt. split; [|reflexivity].
    rewrite Zplus_mod_idemp_l. f_equal. lia.
Qed.

(** X3. The counter of the wing animation of an agent stays between 0
    and 19 whatever is called on the agent, so [Bird.draw] never runs
    past the last branch of its chain. While the agent is not diving
    (tilt above -80), [k] draws in a row advance the counter by [k]
    modulo 20 and show image 0 for counter values 0 to 4, image 1 for 5
    to 9, image 2 for 10 to 14 and image 1 for 15 to 19: the animation
    repeats every 20 draws. *)
Theorem wing_animation_cycles (x0 y0 : Z) (os : list bird_op) (k : nat) :
  let b := run_ops (Bird.init x0 y0) os in
  -80 < Bird.tilt b ->
  0 <= Bird.img_count b <= 19 /\
  Bird.img_count (Nat.iter k Bird.draw b)
  = (Bird.img_count b + Z.of_nat k) mod 20 /\
  Bird.img (Nat.iter (S k) Bird.draw b)
  = wing ((Bird.img_count b + Z.of_nat (S k)) mod 20) /\
  Bird.img_count (Nat.iter (k + 20) Bird.draw b)
  = Bird.img_count (Nat.iter k Bird.draw b).
Proof.
  intros b Ht.
  destruct (agent_inv_run x0 os _ (agent_inv_init x0 y0))
    as (_ & _ & _ & Hc & _).
  fold b in Hc. split; [exact Hc|].
  destruct (draw_iter b k Ht Hc) as [Ek Etk].
  split; [exact Ek|]. split.
  - change (Nat.iter (S k) Bird.draw b)
      with (Bird.draw (Nat.iter k Bird.draw b)).
    destruct (draw_step (Nat.iter k Bird.draw b)) as (_ & Ei & _).
    { rewrite Etk. exact Ht. }
    { rewrite Ek. pose proof (Z.mod_pos_bound
        (Bird.img_count b + Z.of_nat k) 20). lia. }
    rewrite Ei, Ek, Zplus_mod_idemp_l. f_equal. f_equal. lia.
  - destruct (draw_iter b (k + 20) Ht Hc) as [Ek' _].
    rewrite Ek', Ek, Nat2Z.inj_add.
    replace (Bird.img_count b + (Z.of_nat k + Z.of_nat 20))
      with (Bird.img_count b + Z.of_nat k + 1 * 20) by lia.
    apply Z_mod_plus_full.
Qed.

Lemma wing_animation_cycles_witness :
  -80 < Bird.tilt (run_ops (Bird.init 230 350) [OpMove; OpDraw]) /\
  Bird.img (Nat.iter 12 Bird.draw
              (run_ops (Bird.init 230 350) [OpMove; OpDraw]))
  = 2%nat.
Proof.
  assert (H : -80 < Bird.tilt
                      (run_ops (Bird.init 230 350) [OpMove; OpDraw]))
    by (vm_compute; reflexivity).
  split; [exact H|].
  exact (proj1 (proj2 (proj2
    (wing_animation_cycles 230 350 [OpMove; OpDraw] 11 H)))).
Defined.

(** ** The start of an episode *)

Section setup_more.
Context `{Assets}.

Lemma foldl_setup_body (create : ref -> Net) (genomes : list (Z * ref))
  (w : World) :
  let w' := foldl (setup_body create) w genomes in
  birds w' = birds w ++ replicate (length genomes) (Bird.init 230 350) /\
  nets w' = nets w ++ (create <$> genomes.*2) /\
  ge w' = ge w ++ genomes.*2 /\
  pipes w' = pipes w /\ base w' = base w /\ score w' = score w /\
  (forall g, g ∈ genomes.*2 -> fitness w' !! g = Some 0%float) /\
  (forall g, g ∉ genomes.*2 -> fitness w' !! g = fitness w !! g).
Proof.
  revert w. induction genomes as [|[k g] genomes IH]; intros w; cbn zeta.
  - cbn. rewrite !app_nil_r. repeat split; auto.
    intros g Hg. apply elem_of_nil in Hg. contradiction.
  - cbn [foldl].
    destruct (IH (setup_body create w (k, g)))
      as (Hb & Hn & Hg & Hp & Hba & Hs & Hin & Hout).
    cbn [setup_body set_nets set_birds set_fitness set_ge birds nets ge
         fitness pipes base score] in *.
    rewrite Hb, Hn, Hg, <- !app_assoc. cbn.
    repeat (split; [reflexivity || assumption|]).
    split.
    + intros g' Hg'.
      destruct (decide (g' ∈ genomes.*2)) as [Hr|Hr]; [auto|].
      apply elem_of_cons in Hg' as [->|Hg']; [|contradiction].
      rewrite (Hout g Hr). apply lookup_insert_eq.
    + intros g' Hg'. apply not_elem_of_cons in Hg' as [Hne Hr].
      rewrite (Hout g' Hr). apply lookup_insert_ne. auto.
Qed.

(** X4. The episode starts with one agent per genome handed in, in the
    order of [genomes]: each at (230, 350), paired with the network made
    from its genome. The fitness of every genome handed in is set to 0
    whatever it was before, the fitness of any other genome in the store
    is left alone; the score is 0 and there is one pipe, at [x = 600]. *)
Theorem setup_population (create : ref -> Net) (genomes : list (Z * ref))
  (store : gmap ref float) (h0 : Z) :
  let w := setup create genomes store h0 in
  birds w = replicate (length genomes) (Bird.init 230 350) /\
  nets w = create <$> genomes.*2 /\
  ge w = genomes.*2 /\
  pipes w = [Pipe.init 600 h0] /\ score w = 0 /\
  (forall g, g ∈ genomes.*2 -> fitness w !! g = Some 0%float) /\
  (forall g, g ∉ genomes.*2 -> fitness w !! g = store !! g).
Proof.
  intros w. unfold w, setup.
  destruct (foldl_setup_body create genomes
              (mkWorld [] [] [] store [] (Base.init 730) 0))
    as (Hb & Hn & Hg & _ & _ & Hs & Hin & Hout).
  cbn [set_pipes birds nets ge fitness pipes score] in *.
  repeat split; assumption.
Qed.

(** X5. Handed no genome at all, the episode returns in its first round
    (provided no quit event is pending): the store is as it was, the
    score is 0, and no pipe has moved. *)
Theorem no_genomes_returns_at_once (create : ref -> Net)
  (store : gmap ref float) (h0 : Z) (inp : TickInput)
  (inputs : list TickInput) :
  existsb is_quit (events inp) = false ->
  exists w, eval_genomes create [] store h0 (inp :: inputs) = Ok w /\
    fitness w = store /\ score w = 0 /\ birds w = [] /\
    pipes w = [Pipe.init 600 h0].
Proof.
  intros Hq. eexists. split.
  - unfold eval_genomes. cbn [main_loop]. unfold tick. rewrite Hq.
    cbn. reflexivity.
  - cbn. auto.
Qed.

(** X6. A round that starts with agents but without any pipe does not
    complete: asking the first controller raises [IndexError] at
    [pipes[pipe_ind]]. *)
Theorem round_without_pipe_raises (inp : TickInput) (w : World) :
  wf w -> birds w <> [] -> pipes w = [] ->
  existsb is_quit (events inp) = false ->
  tick inp w = Raise IndexError.
Proof.
  intros Hwf Hb Hp Hq. unfold tick. rewrite Hq.
  destruct (birds w) as [|b bs] eqn:Hbw; [contradiction|].
  unfold tick_front, think, for_in.
  cbn [for_in_from]. rewrite Hbw.
  change ((b :: bs) !! 0%nat) with (Some b). cbn iota.
  destruct (lookup_lt_is_Some_2 (ge w) 0) as [g Hg].
  { destruct Hwf as ([_ Hl] & _). rewrite Hl, Hbw. cbn. lia. }
  destruct (lookup_lt_is_Some_2 (nets w) 0) as [net Hn].
  { destruct Hwf as ([Hl _] & _). rewrite Hl, Hbw. cbn. lia. }
  destruct (add_fitness_spec 0 0.1%float w g Hwf Hg) as (f & Hf & Eadd).
  unfold think_body. rewrite Eadd. cbn [mbind res_bind].
  unfold index. cbn [nets pipes set_fitness]. rewrite Hn, Hp.
  reflexivity.
Qed.

End setup_more.

Lemma no_genomes_returns_at_once_witness :
  existsb is_quit (events calm) = false /\
  exists w, eval_genomes (H := rect_assets) (fun _ => hover) []
              (<[7%nat := 3%float]> ∅) 50 [calm] = Ok w /\
            fitness w = <[7%nat := 3%float]> ∅.
Proof.
  assert (Hq : existsb is_quit (events calm) = false) by reflexivity.
  split; [exact Hq|].
  destruct (no_genomes_returns_at_once (H := rect_assets) (fun _ => hover)
              (<[7%nat := 3%float]> ∅) 50 calm [] Hq) as (w & E & Hf & _).
  exists w. split; [exact E|exact Hf].
Defined.

Lemma round_without_pipe_raises_witness :
  wf (set_pipes [] (crowd 600)) /\
  tick (H := rect_assets) calm (set_pipes [] (crowd 600))
  = Raise IndexError.
Proof.
  assert (Hwf : wf (set_pipes [] (crowd 600))) by exact (wf_crowd 600).
  split; [exact Hwf|].
  apply (round_without_pipe_raises (H := rect_assets) calm
           (set_pipes [] (crowd 600)) Hwf);
    [discriminate|reflexivity|reflexivity].
Defined.

(** ** The scan of all pipes, exactly *)

Lemma same_x_scan_rel (x0 : Z) (w ws : World) :
  scan_rel w ws -> same_x x0 w -> same_x x0 ws.
Proof.
  intros (Hwf & Hag & _) Hx b Hb.
  destruct (birds_agents ws b) as (a & Ha & <-); [apply Hwf|exact Hb|].
  apply Hx, agents_birds. eapply elem_of_sublist; eauto.
Qed.

Section scan_exact.
Context `{Assets}.

(** As [scan_birds_spec], and the agents left are among those there
    were. *)
Lemma scan_birds_sub (w0 w : World) (pipe : Pipe.t) (add : bool) :
  scan_rel w0 w ->
  exists w' pipe' add',
    scan_birds (w, pipe, add) = Ok (w', pipe', add') /\
    scan_rel w0 w' /\ pipes w' = pipes w /\
    birds w' `sublist_of` birds w /\
    (pipe' = pipe /\ add' = add \/
     Pipe.passed pipe = false /\ pipe' = Pipe.set_passed true pipe /\
     add' = true) /\
    (forall x0, same_x x0 w -> birds w' <> [] ->
       pipe' = (if fire0 x0 pipe then Pipe.set_passed true pipe else pipe)
       /\ add' = add || fire0 x0 pipe).
Proof.
  intros Hrel. unfold scan_birds.
  destruct (for_in_spec (fun s : ScanState => birds s.1.1) scan_body
              (scan_inv w0 w pipe add) (w, pipe, add))
    as ([[w' pipe'] add'] & j & E & Hinv & Hnone).
  - intros i a s Hs Ha. apply (scan_body_spec w0 w pipe add); assumption.
  - unfold scan_inv. cbn [fst snd].
    split; [exact Hrel|]. split; [reflexivity|]. split; [reflexivity|].
    split; [auto|]. split; [lia|]. split; [left; auto|].
    intros x0 _. change ((0 <? 0)%nat) with false. cbn [andb].
    split; [reflexivity|]. symmetry. apply orb_false_r.
  - exists w', pipe', add'. split; [exact E|].
    destruct Hinv as (Hrel' & Hp & Hsub & H0 & Hpos & Hflag & Hfire).
    cbn [fst snd] in *.
    split; [exact Hrel'|]. split; [exact Hp|]. split; [exact Hsub|].
    split; [exact Hflag|].
    intros x0 Hsame Hne. specialize (Hfire x0 Hsame). cbn zeta in Hfire.
    assert (Hj : (0 <? j)%nat = true).
    { destruct j as [|j]; [|reflexivity].
      specialize (H0 eq_refl). injection H0 as -> _ _.
      destruct (birds w); [contradiction|discriminate]. }
    rewrite Hj in Hfire. cbn [andb] in Hfire. exact Hfire.
Qed.

Lemma pipe_body_exact (x0 : Z) (w : World) (i : nat) (pipe : Pipe.t)
  (s : World * bool * list nat) :
  scan_pipes_inv x0 w i s -> pipes s.1.1 !! i = Some pipe ->
  exists s', pipe_body i pipe s = Ok s' /\ scan_pipes_inv x0 w (S i) s' /\
    (length (pipes s'.1.1) <= length (pipes s.1.1))%nat.
Proof.
  destruct s as [[ws add] rem]. unfold scan_pipes_inv. cbn [fst snd].
  intros (Hrel & Hlen & Hrest & Hdone & Hrem & Hadd & Hex) Hi.
  assert (Hiw : pipes w !! i = Some pipe) by (rewrite <- Hrest; auto).
  pose proof (lookup_lt_Some _ _ _ Hi) as Hlt.
  destruct (scan_birds_sub w ws pipe add Hrel)
    as (w' & pipe' & add' & E & Hrel' & Hp & Hsub & Hflag & Hfire).
  assert (Hxp : Pipe.x pipe' = Pipe.x pipe).
  { destruct Hflag as [[-> _]|(_ & -> & _)]; reflexivity. }
  assert (Hne : birds w' <> [] -> birds ws <> []).
  { intros Hn Hws. rewrite Hws in Hsub. apply sublist_nil_r in Hsub.
    contradiction. }
  unfold pipe_body. rewrite E. cbn [mbind res_bind].
  eexists. split; [reflexivity|]. cbn [fst snd set_pipes pipes birds].
  split; [|rewrite length_insert, Hp; lia].
  split; [exact Hrel'|].
  split; [rewrite length_insert, Hp; exact Hlen|].
  split.
  { intros k Hk. rewrite list_lookup_insert_ne by lia.
    rewrite Hp. apply Hrest. lia. }
  split.
  { intros k p Hk Hkp. destruct (decide (k = i)) as [->|Hki].
    - assert (p = pipe) as -> by congruence.
      exists pipe'. rewrite list_lookup_insert_eq by (rewrite Hp; exact Hlt).
      split; [reflexivity|]. split.
      + destruct Hflag as [[-> _]|(Hf & -> & _)]; auto.
      + intros Hx Hb. apply (Hfire x0); [|exact Hb].
        eapply same_x_scan_rel; eauto.
    - destruct (Hdone k p ltac:(lia) Hkp) as (p' & Hl & Hor & Hf).
      exists p'. rewrite list_lookup_insert_ne by auto. rewrite Hp.
      split; [exact Hl|]. split; [exact Hor|]. auto. }
  split.
  { intros r. unfold off_screen in *. rewrite Hxp.
    destruct (Pipe.x pipe + pipe_img_width <? 0) eqn:Hoff.
    - rewrite elem_of_app, list_elem_of_singleton, Hrem. split.
      + intros [(Hr & p & Hrp & Ho)| ->].
        * split; [lia|]. eauto.
        * split; [lia|]. exists pipe. auto.
      + intros (Hr & p & Hrp & Ho).
        destruct (decide (r = i)) as [->|Hri]; [right; reflexivity|].
        left. split; [lia|]. eauto.
    - rewrite Hrem. split.
      + intros (Hr & p & Hrp & Ho). split; [lia|]. eauto.
      + intros (Hr & p & Hrp & Ho).
        destruct (decide (r = i)) as [->|Hri].
        * assert (p = pipe) as -> by congruence. congruence.
        * split; [lia|]. eauto. }
  split.
  { intros Ha'.
    destruct Hflag as [[-> ->]|(Hf & -> & _)].
    - destruct (Hadd Ha') as (k & p & Hkp & Hpp & Hl).
      exists k, p. split; [exact Hkp|]. split; [exact Hpp|].
      assert (k <> i).
      { intros ->. rewrite Hi in Hl. injection Hl as Hl.
        assert (p = pipe) as -> by congruence.
        apply (f_equal Pipe.passed) in Hl. cbn in Hl. congruence. }
      rewrite list_lookup_insert_ne by auto. rewrite Hp. exact Hl.
    - exists i, pipe. split; [exact Hiw|]. split; [exact Hf|].
      apply list_lookup_insert_eq. rewrite Hp. exact Hlt. }
  intros Hx Hb.
  destruct (Hfire x0 (same_x_scan_rel x0 w ws Hrel Hx) Hb) as [_ ->].
  rewrite (Hex Hx (Hne Hb)).
  rewrite (take_S_r _ _ _ Hiw), existsb_app. cbn [existsb].
  rewrite orb_false_r. reflexivity.
Qed.

(** The loops of lines 333-353 in one step, pipe by pipe. *)
Lemma scan_pipes_exact (x0 : Z) (w : World) :
  wf w ->
  exists w1 add_pipe rem, scan_pipes w = Ok (w1, add_pipe, rem) /\
    scan_rel w w1 /\ length (pipes w1) = length (pipes w) /\
    (forall k p, pipes w !! k = Some p ->
       exists p', pipes w1 !! k = Some (Pipe.move p') /\
         (p' = p \/ Pipe.passed p = false /\ p' = Pipe.set_passed true p) /\
         (same_x x0 w -> birds w1 <> [] ->
          p' = if fire0 x0 p then Pipe.set_passed true p else p)) /\
    (forall r, r ∈ rem <->
       exists p, pipes w !! r = Some p /\ off_screen p = true) /\
    (add_pipe = true ->
       exists k p, pipes w !! k = Some p /\ Pipe.passed p = false /\
         pipes w1 !! k = Some (Pipe.move (Pipe.set_passed true p))) /\
    (same_x x0 w -> birds w1 <> [] ->
       add_pipe = existsb (fire0 x0) (pipes w)).
Proof.
  intros Hwf. unfold scan_pipes.
  destruct (for_in_spec
              (fun s : World * bool * list nat => pipes s.1.1) pipe_body
              (scan_pipes_inv x0 w) (w, false, []))
    as ([[w1 add] rem] & j & E & Hinv & Hnone).
  - intros i a s Hs Ha. apply pipe_body_exact; assumption.
  - unfold scan_pipes_inv. cbn [fst snd].
    split; [apply scan_rel_refl, Hwf|]. split; [reflexivity|].
    split; [reflexivity|]. split; [intros k p Hk; lia|].
    split.
    { intros r. split.
      - intros Hr. apply elem_of_nil in Hr. contradiction.
      - intros [Hr _]. lia. }
    split; [discriminate|]. intros _ _. reflexivity.
  - exists w1, add, rem. split; [exact E|].
    unfold scan_pipes_inv in Hinv. cbn [fst snd] in *.
    destruct Hinv as (Hrel & Hlen & Hrest & Hdone & Hrem & Hadd & Hex).
    apply lookup_ge_None in Hnone. rewrite Hlen in Hnone.
    split; [exact Hrel|]. split; [exact Hlen|].
    split.
    { intros k p Hkp. apply Hdone; [|exact Hkp].
      apply lookup_lt_Some in Hkp. lia. }
    split.
    { intros r. rewrite Hrem. split.
      - intros [_ Hp]. exact Hp.
      - intros (p & Hrp & Ho). split; [|eauto].
        apply lookup_lt_Some in Hrp. lia. }
    split; [exact Hadd|].
    intros Hx Hb. rewrite (Hex Hx Hb), take_ge by lia. reflexivity.
Qed.

End scan_exact.

(** ** A round, exactly *)

Lemma remove_at_filter `{Assets} (k0 : nat) (rem : list nat)
  (l : list Pipe.t) (P : Pipe.t -> bool) :
  (forall j p, l !! j = Some p -> ((k0 + j)%nat ∈ rem <-> P p = false)) ->
  remove_at k0 rem l = List.filter P l.
Proof.
  revert k0. induction l as [|a l IH]; intros k0 Hrem; [reflexivity|].
  cbn [remove_at List.filter].
  pose proof (Hrem 0%nat a eq_refl) as H0. rewrite Nat.add_0_r in H0.
  rewrite (IH (S k0)).
  - destruct (P a) eqn:Ha.
    + rewrite bool_decide_eq_false_2; [reflexivity|].
      intros Hin. apply H0 in Hin. discriminate.
    + rewrite bool_decide_eq_true_2; [reflexivity|]. apply H0. reflexivity.
  - intros j p Hj. rewrite <- (Hrem (S j) p Hj).
    replace (S k0 + j)%nat with (k0 + S j)%nat by lia. reflexivity.
Qed.

Section round_exact.
Context `{Assets}.

Lemma same_x_think (x0 : Z) (pipe_ind : nat) (pipe : Pipe.t)
  (w wt : World) :
  wf w -> pipes w !! pipe_ind = Some pipe -> think pipe_ind w = Ok wt ->
  same_x x0 w -> same_x x0 wt.
Proof.
  intros Hwf Hp E Hx.
  destruct (think_spec pipe_ind pipe w Hwf Hp)
    as (wt' & E' & _ & _ & _ & _ & _ & _ & Hlen & Hb & _).
  rewrite E in E'. injection E' as <-.
  intros b' Hb'. apply list_elem_of_lookup in Hb' as [i Hi].
  pose proof (lookup_lt_Some _ _ _ Hi) as Hlt.
  destruct Hwf as ([Hn _] & _).
  destruct (lookup_lt_is_Some_2 (birds w) i) as [b Hbi]; [lia|].
  destruct (lookup_lt_is_Some_2 (nets w) i) as [net Hni]; [lia|].
  rewrite (Hb i b net Hbi Hni) in Hi. injection Hi as <-.
  rewrite controlled_x. apply Hx. eapply list_elem_of_lookup_2; eauto.
Qed.

(** A round of the loop on a well-formed world with a pipe ahead, with
    what becomes of every pipe and of every genome. *)
Lemma round_exact (x0 h : Z) (w : World) (pipe : Pipe.t) :
  wf w -> pipes w !! choose_pipe_ind w = Some pipe ->
  exists w1 add_pipe rem w',
    tick_front w = Ok (w1, add_pipe, rem) /\
    tick_back h (w1, add_pipe, rem) = Ok w' /\
    wf w' /\
    ge w1 `sublist_of` ge w /\ ge w' `sublist_of` ge w1 /\
    (forall k p, pipes w !! k = Some p ->
       exists p', pipes w1 !! k = Some (Pipe.move p') /\
         (p' = p \/ Pipe.passed p = false /\ p' = Pipe.set_passed true p) /\
         (same_x x0 w -> birds w1 <> [] ->
          p' = if fire0 x0 p then Pipe.set_passed true p else p)) /\
    length (pipes w1) = length (pipes w) /\
    pipes w' = List.filter was_on_screen (pipes w1)
               ++ (if add_pipe then [Pipe.init 600 h] else []) /\
    (add_pipe = true ->
       exists k p, pipes w !! k = Some p /\ Pipe.passed p = false /\
         pipes w1 !! k = Some (Pipe.move (Pipe.set_passed true p))) /\
    (same_x x0 w -> birds w1 <> [] ->
       add_pipe = existsb (fire0 x0) (pipes w)) /\
    (forall g f, g ∈ ge w -> g ∉ ge w1 -> fitness w !! g = Some f ->
       fitness w' !! g = Some (f + 0.1 - 1)%float) /\
    (forall g, g ∉ ge w -> fitness w' !! g = fitness w !! g) /\
    score w' = score w + (if add_pipe then 1 else 0) /\
    (birds w1 = [] -> birds w' = []).
Proof.
  intros Hwf Hpipe.
  destruct (think_spec _ pipe w Hwf Hpipe)
    as (wt & Et & Hwft & _ & Hget & Hpt & _ & Hsct & _ & _ & Hfin & Hfout).
  destruct (scan_pipes_exact x0 wt Hwft)
    as (w1 & add & rem & Es & Hrel & Hlen & Hpk & Hrem & Hadd & Hex).
  destruct Hrel as (Hwf1 & _ & Hge1 & _ & Hsc1 & _ & Hout1 & Hgone1).
  rewrite Hpt in Hpk, Hrem, Hadd, Hex, Hlen. rewrite Hget in Hge1.
  exists w1, add, rem.
  (* the award, when the flag is set *)
  assert (Haw : exists wa,
    (if add then award h w1 else Ok w1) = Ok wa /\ wf wa /\
    birds wa = birds w1 /\ ge wa = ge w1 /\
    score wa = score w + (if add then 1 else 0) /\
    pipes wa = pipes w1 ++ (if add then [Pipe.init 600 h] else []) /\
    (forall g, g ∉ ge w1 -> fitness wa !! g = fitness w1 !! g)).
  { destruct add.
    - destruct (award_spec h w1 Hwf1)
        as (wa & -> & Hwfa & Hba & _ & Hga & Hpa & _ & Hsca & _ & Hfo).
      exists wa. split; [reflexivity|]. split; [exact Hwfa|].
      split; [exact Hba|]. split; [exact Hga|].
      split; [lia|]. split; [exact Hpa|exact Hfo].
    - exists w1. split; [reflexivity|]. split; [exact Hwf1|].
      split; [reflexivity|]. split; [reflexivity|].
      split; [lia|]. split; [rewrite app_nil_r; reflexivity|auto]. }
  destruct Haw as (wa & Ea & Hwfa & Hba & Hga & Hsca & Hpa & Hfa).
  destruct (oob_scan_spec (prune rem wa) Hwfa)
    as (wo & Eo & Hwfo & Hfo & Hpo & _ & Hsco & _ & Hgo & _).
  cbn [prune set_pipes fitness pipes score ge] in Hfo, Hpo, Hsco, Hgo.
  exists (draw_window (set_base (Base.move (base wo)) wo)).
  split.
  { unfold tick_front. rewrite Et. cbn [mbind res_bind]. exact Es. }
  split.
  { unfold tick_back. rewrite Ea. cbn [mbind res_bind].
    rewrite Eo. reflexivity. }
  cbn [draw_window set_base set_birds score pipes fitness ge birds].
  split.
  { destruct Hwfo as ([Hno Hgoo] & Hndo & Hfito).
    split; [split|split]; cbn; rewrite ?length_fmap; auto. }
  split; [exact Hge1|]. split; [rewrite <- Hga; exact Hgo|].
  split.
  { intros k p Hkp. destruct (Hpk k p Hkp) as (p' & Hl & Hor & Hf).
    exists p'. split; [exact Hl|]. split; [exact Hor|].
    intros Hx Hb. apply Hf; [|exact Hb].
    exact (same_x_think x0 _ pipe w wt Hwf Hpipe Et Hx). }
  split; [exact Hlen|].
  split.
  { rewrite Hpo, Hpa.
    assert (Hkept : remove_at 0 rem (pipes w1)
                    = List.filter was_on_screen (pipes w1)).
    { apply remove_at_filter. intros j p1 Hj. cbn [Nat.add].
      rewrite Hrem.
      destruct (lookup_lt_is_Some_2 (pipes w) j) as [p Hp];
        [rewrite <- Hlen; eapply lookup_lt_Some; eauto|].
      destruct (Hpk j p Hp) as (p' & Hl & Hor & _).
      assert (p1 = Pipe.move p') as -> by congruence.
      assert (Hxp : Pipe.x p' = Pipe.x p).
      { destruct Hor as [->|(_ & ->)]; reflexivity. }
      unfold was_on_screen, off_screen, Pipe.move, Pipe.VELOCITY.
      cbn [Pipe.x]. rewrite Hxp.
      replace (Pipe.x p - 5 + 5) with (Pipe.x p) by lia.
      rewrite negb_false_iff. split.
      - intros (q & Hq & Ho). congruence.
      - intros Ho. eauto. }
    destruct add.
    - rewrite remove_at_app; [rewrite Hkept; reflexivity|].
      intros r Hr. apply Hrem in Hr as (p & Hp & _).
      apply lookup_lt_Some in Hp. cbn. lia.
    - rewrite !app_nil_r. exact Hkept. }
  split; [exact Hadd|].
  split.
  { intros Hx Hb. apply Hex; [|exact Hb].
    exact (same_x_think x0 _ pipe w wt Hwf Hpipe Et Hx). }
  split.
  { intros g f Hg Hng Hf. rewrite Hfo, (Hfa g Hng).
    destruct (Hgone1 g) as (f' & Hf' & ->); [rewrite Hget; exact Hg|exact Hng|].
    rewrite (Hfin g Hg), Hf in Hf'. injection Hf' as <-. reflexivity. }
  split.
  { intros g Hng. rewrite Hfo, Hfa.
    - rewrite Hout1 by (rewrite Hget; exact Hng). apply Hfout, Hng.
    - intros Hin. apply Hng. eapply elem_of_sublist; eauto. }
  split; [rewrite Hsco; exact Hsca|].
  intros Hb1.
  assert (Hg1 : ge w1 = []).
  { destruct Hwf1 as ([_ Hl] & _). rewrite Hb1 in Hl.
    destruct (ge w1); [reflexivity|discriminate]. }
  rewrite Hga, Hg1 in Hgo. apply sublist_nil_r in Hgo.
  destruct Hwfo as ([_ Hl] & _). rewrite Hgo in Hl.
  destruct (birds wo); [reflexivity|discriminate].
Qed.

End round_exact.

(** ** Pipes in a round *)

Section pipes_in_a_round.
Context `{Assets}.

(** X7. In a round every pipe moves left by exactly 5 and keeps its
    place in the list, its height, its top and its bottom; a flag that
    is set stays set. *)
Theorem pipes_keep_shape (w : World) (pipe : Pipe.t) :
  wf w -> pipes w !! choose_pipe_ind w = Some pipe ->
  exists w1 add_pipe rem,
    tick_front w = Ok (w1, add_pipe, rem) /\
    length (pipes w1) = length (pipes w) /\
    forall k p, pipes w !! k = Some p ->
      exists p', pipes w1 !! k = Some p' /\
        Pipe.x p' = Pipe.x p - 5 /\
        Pipe.height p' = Pipe.height p /\
        Pipe.top p' = Pipe.top p /\
        Pipe.bottom p' = Pipe.bottom p /\
        (Pipe.passed p = true -> Pipe.passed p' = true).
Proof.
  intros Hwf Hpipe.
  destruct (round_exact 0 0 w pipe Hwf Hpipe)
    as (w1 & add & rem & w' & Ef & _ & _ & _ & _ & Hpk & Hlen & _).
  exists w1, add, rem. split; [exact Ef|]. split; [exact Hlen|].
  intros k p Hkp. destruct (Hpk k p Hkp) as (p' & Hl & Hor & _).
  exists (Pipe.move p'). split; [exact Hl|].
  destruct Hor as [->|(Hf & ->)]; cbn; repeat split; auto.
Qed.

(** X8. At the end of a round the list of pipes is made of the pipes
    whose right edge was still on the screen when the round looked at
    them (x + width >= 0 before the move), in their order, followed by
    one new pipe when [add_pipe] is set. *)
Theorem pipes_after_round (h : Z) (w : World) (pipe : Pipe.t) :
  wf w -> pipes w !! choose_pipe_ind w = Some pipe ->
  exists w1 add_pipe rem w',
    tick_front w = Ok (w1, add_pipe, rem) /\
    tick_back h (w1, add_pipe, rem) = Ok w' /\
    pipes w' = List.filter was_on_screen (pipes w1)
               ++ (if add_pipe then [Pipe.init 600 h] else []) /\
    forall r, r ∈ rem <->
      exists p, pipes w !! r = Some p /\ Pipe.x p + pipe_img_width < 0.
Proof.
  intros Hwf Hpipe.
  destruct (round_exact 0 h w pipe Hwf Hpipe)
    as (w1 & add & rem & w' & Ef & Eb & _ & _ & _ & _ & _ & Hp & _).
  exists w1, add, rem, w'. split; [exact Ef|]. split; [exact Eb|].
  split; [exact Hp|].
  (* what [rem] holds, read off the scan *)
  destruct (think_spec _ pipe w Hwf Hpipe)
    as (wt & Et & Hwft & _ & _ & Hpt & _).
  destruct (scan_pipes_exact 0 wt Hwft)
    as (w1' & add' & rem' & Es & _ & _ & _ & Hrem & _).
  unfold tick_front in Ef. rewrite Et in Ef. cbn [mbind res_bind] in Ef.
  rewrite Es in Ef. injection Ef as _ _ <-.
  intros r. rewrite Hrem, Hpt. unfold off_screen.
  split; intros (p & Hp' & Ho); exists p; (split; [exact Hp'|]).
  - apply Z.ltb_lt, Ho.
  - apply Z.ltb_lt, Ho.
Qed.

(** X9. A round sets [add_pipe] only if a pipe that was not yet passed
    at its start is passed at its end. When all pipes are already
    passed, the round adds no pipe and leaves the score as it is: no
    pipe is counted twice. *)
Theorem pass_event_needs_unpassed_pipe (h : Z) (w : World)
  (pipe : Pipe.t) :
  wf w -> pipes w !! choose_pipe_ind w = Some pipe ->
  exists w1 add_pipe rem w',
    tick_front w = Ok (w1, add_pipe, rem) /\
    tick_back h (w1, add_pipe, rem) = Ok w' /\
    (add_pipe = true ->
       exists k p p', pipes w !! k = Some p /\ Pipe.passed p = false /\
         pipes w1 !! k = Some p' /\ Pipe.passed p' = true) /\
    ((forall p, p ∈ pipes w -> Pipe.passed p = true) ->
       add_pipe = false /\ score w' = score w /\
       length (pipes w') <= length (pipes w))%nat.
Proof.
  intros Hwf Hpipe.
  destruct (round_exact 0 h w pipe Hwf Hpipe)
    as (w1 & add & rem & w' & Ef & Eb & _ & _ & _ & _ & Hlen & Hp & Hadd
        & _ & _ & _ & Hs & _).
  exists w1, add, rem, w'. split; [exact Ef|]. split; [exact Eb|].
  split.
  - intros Ha. destruct (Hadd Ha) as (k & p & Hkp & Hpp & Hl).
    exists k, p, (Pipe.move (Pipe.set_passed true p)). auto.
  - intros Hall.
    assert (Ha : add = false).
    { destruct add; [|reflexivity].
      destruct (Hadd eq_refl) as (k & p & Hkp & Hpp & _).
      rewrite (Hall p (list_elem_of_lookup_2 _ _ _ Hkp)) in Hpp.
      discriminate. }
    subst add. split; [reflexivity|]. split; [lia|].
    rewrite Hp, app_nil_r, <- Hlen. apply List.filter_length_le.
Qed.

(** X10. In a round whose collision scan leaves at least one agent
    alive, with all agents at [x = 230]: every pipe ends the scan
    flagged exactly when it was flagged before or its left edge was
    left of 230, and [add_pipe] is set exactly when some pipe not yet
    flagged had its left edge left of 230. *)
Theorem pass_event_exact (w : World) (pipe : Pipe.t) :
  wf w -> same_x 230 w -> pipes w !! choose_pipe_ind w = Some pipe ->
  exists w1 add_pipe rem,
    tick_front w = Ok (w1, add_pipe, rem) /\
    (birds w1 <> [] ->
     add_pipe = existsb (fire0 230) (pipes w) /\
     forall k p, pipes w !! k = Some p ->
       exists p', pipes w1 !! k = Some p' /\
         Pipe.passed p' = Pipe.passed p || (Pipe.x p <? 230)).
Proof.
  intros Hwf Hx Hpipe.
  destruct (round_exact 230 0 w pipe Hwf Hpipe)
    as (w1 & add & rem & w' & Ef & _ & _ & _ & _ & Hpk & _ & _ & _ & Hex
        & _).
  exists w1, add, rem. split; [exact Ef|]. intros Hb.
  split; [exact (Hex Hx Hb)|].
  intros k p Hkp. destruct (Hpk k p Hkp) as (p' & Hl & _ & Hf).
  exists (Pipe.move p'). split; [exact Hl|].
  rewrite (Hf Hx Hb). unfold fire0.
  destruct (Pipe.passed p) eqn:Hp, (Pipe.x p <? 230); cbn;
    auto.
Qed.

End pipes_in_a_round.

Lemma pipes_keep_shape_witness :
  wf (crowd 225) /\
  exists w1 add_pipe rem,
    tick_front (H := rect_assets) (crowd 225) = Ok (w1, add_pipe, rem) /\
    length (pipes w1) = length (pipes (crowd 225)).
Proof.
  pose proof (wf_crowd 225) as Hwf. split; [exact Hwf|].
  destruct (pipes_keep_shape (H := rect_assets) (crowd 225)
              (Pipe.mk 225 50 (50 - 640) 250 false) Hwf eq_refl)
    as (w1 & add & rem & E & Hl & _).
  exists w1, add, rem. auto.
Defined.

Lemma pipes_after_round_witness :
  wf (crowd (-110)) /\
  match tick_front (H := rect_assets) (crowd (-110)) with
  | Ok (_, _, rem) => rem = [0%nat]
  | _ => False
  end /\
  exists w1 add_pipe rem w',
    tick_front (H := rect_assets) (crowd (-110)) = Ok (w1, add_pipe, rem) /\
    tick_back (H := rect_assets) 50 (w1, add_pipe, rem) = Ok w' /\
    pipes w' = List.filter (was_on_screen (H := rect_assets)) (pipes w1)
               ++ (if add_pipe then [Pipe.init (H := rect_assets) 600 50]
                   else []).
Proof.
  pose proof (wf_crowd (-110)) as Hwf. split; [exact Hwf|].
  split; [vm_compute; reflexivity|].
  destruct (pipes_after_round (H := rect_assets) 50 (crowd (-110))
              (Pipe.mk (-110) 50 (50 - 640) 250 false) Hwf eq_refl)
    as (w1 & add & rem & w' & Ef & Eb & Hp & _).
  exists w1, add, rem, w'. auto.
Defined.

Lemma pass_event_needs_unpassed_pipe_witness :
  wf (crowd 225) /\
  exists w1 add_pipe rem w',
    tick_front (H := rect_assets) (crowd 225) = Ok (w1, add_pipe, rem) /\
    tick_back (H := rect_assets) 50 (w1, add_pipe, rem) = Ok w'.
Proof.
  pose proof (wf_crowd 225) as Hwf. split; [exact Hwf|].
  destruct (pass_event_needs_unpassed_pipe (H := rect_assets) 50
              (crowd 225) (Pipe.mk 225 50 (50 - 640) 250 false) Hwf eq_refl)
    as (w1 & add & rem & w' & Ef & Eb & _).
  exists w1, add, rem, w'. auto.
Defined.

Lemma pass_event_exact_witness :
  wf (crowd 225) /\ same_x 230 (crowd 225) /\
  exists w1 rem,
    tick_front (H := rect_assets) (crowd 225) = Ok (w1, true, rem) /\
    birds w1 <> [].
Proof.
  pose proof (wf_crowd 225) as Hwf.
  pose proof (same_x_crowd 225) as Hx.
  split; [exact Hwf|]. split; [exact Hx|].
  destruct (pass_event_exact (H := rect_assets) (crowd 225)
              (Pipe.mk 225 50 (50 - 640) 250 false) Hwf Hx eq_refl)
    as (w1 & add & rem & Ef & Hb).
  assert (Hne : birds w1 <> []).
  { assert (Hc : match tick_front (H := rect_assets) (crowd 225) with
                 | Ok (w1, _, _) => birds w1 <> []
                 | _ => False
                 end) by (vm_compute; discriminate).
    rewrite Ef in Hc. exact Hc. }
  destruct (Hb Hne) as [Ha _]. cbn in Ha. subst add.
  exists w1, rem. auto.
Defined.

(** ** Genomes over the rounds of an episode *)

Section genomes_over_rounds.
Context `{Assets}.

(** A round that completes either stops on an empty population or went
    through its two halves with a pipe ahead. *)
Lemma tick_inv (inp : TickInput) (w : World) (r : flow) :
  tick inp w = Ok r ->
  match r with
  | Break w' => w' = w /\ birds w = []
  | Continue w' =>
      exists pipe w1 add_pipe rem,
        pipes w !! choose_pipe_ind w = Some pipe /\
        tick_front w = Ok (w1, add_pipe, rem) /\
        tick_back (drawn_height inp) (w1, add_pipe, rem) = Ok w'
  end.
Proof.
  unfold tick. destruct (existsb _ _); [discriminate|].
  destruct (birds w) as [|b bs] eqn:Hb.
  - intros [= <-]. auto.
  - intros E. inv_bind E as s Es. inv_bind E as w' Eb. injection E as <-.
    destruct (tick_front_pipe w s) as [pipe Hp];
      [rewrite Hb; discriminate|exact Es|].
    destruct s as [[w1 add] rem]. exists pipe, w1, add, rem. auto.
Qed.

(** What a completed round does to the genomes, whichever way it ends. *)
Lemma tick_frame (inp : TickInput) (w : World) (r : flow) :
  wf w -> tick inp w = Ok r ->
  match r with
  | Continue w' | Break w' =>
      wf w' /\ ge w' `sublist_of` ge w /\
      (forall g, g ∉ ge w -> fitness w' !! g = fitness w !! g) /\
      score w <= score w' <= score w + 1
  end.
Proof.
  intros Hwf E. apply tick_inv in E. destruct r as [w'|w'].
  - destruct E as (pipe & w1 & add & rem & Hp & Ef & Eb).
    destruct (round_exact 0 (drawn_height inp) w pipe Hwf Hp)
      as (w1' & add' & rem' & w'' & Ef' & Eb' & Hwf' & Hg1 & Hg' & _ & _
          & _ & _ & _ & _ & Hout & Hs & _).
    rewrite Ef in Ef'. injection Ef' as <- <- <-.
    rewrite Eb in Eb'. injection Eb' as <-.
    split; [exact Hwf'|]. split; [etrans; eauto|]. split; [exact Hout|].
    destruct add; lia.
  - destruct E as [-> _]. split; [exact Hwf|]. split; [reflexivity|].
    split; [reflexivity|lia].
Qed.

Lemma rounds_frame (inputs : list TickInput) (w w' : World) :
  wf w -> rounds inputs w = Ok w' ->
  wf w' /\ ge w' `sublist_of` ge w /\
  (forall g, g ∉ ge w -> fitness w' !! g = fitness w !! g) /\
  score w <= score w' <= score w + Z.of_nat (length inputs).
Proof.
  revert w. induction inputs as [|inp inputs IH]; intros w Hwf E.
  - injection E as <-. split; [exact Hwf|]. split; [reflexivity|].
    split; [reflexivity|cbn; lia].
  - cbn [rounds] in E. inv_bind E as r Er.
    pose proof (tick_frame inp w r Hwf Er) as Hr.
    assert (Hstep : forall w1, wf w1 /\ ge w1 `sublist_of` ge w /\
              (forall g, g ∉ ge w -> fitness w1 !! g = fitness w !! g) /\
              score w <= score w1 <= score w + 1 ->
              rounds inputs w1 = Ok w' \/ w1 = w' ->
              wf w' /\ ge w' `sublist_of` ge w /\
              (forall g, g ∉ ge w -> fitness w' !! g = fitness w !! g) /\
              score w <= score w'
              <= score w + Z.of_nat (length (inp :: inputs))).
    { intros w1 (Hwf1 & Hg1 & Hf1 & Hs1) [E1| ->].
      - destruct (IH w1 Hwf1 E1) as (Hwf' & Hg' & Hf' & Hs').
        split; [exact Hwf'|]. split; [etrans; eauto|]. split.
        + intros g Hg. rewrite Hf'; [apply Hf1, Hg|].
          intros Hin. apply Hg. eapply elem_of_sublist; eauto.
        + cbn [length]. lia.
      - split; [exact Hwf1|]. split; [exact Hg1|]. split; [exact Hf1|].
        cbn [length]. lia. }
    destruct r as [w1|w1].
    + apply (Hstep w1 Hr). left. exact E.
    + injection E as <-. apply (Hstep w1 Hr). right. reflexivity.
Qed.

(** X11. An agent that the collision scan of a round takes out ends the
    round with the fitness it had at the start of the round plus 0.1
    minus 1, computed in binary64 as lines 322 and 338 do, whether or
    not a pass event fires in that round: it gets no share of the bonus,
    and it is not in the population any more. *)
Theorem collided_agent_fitness (h : Z) (w : World) (pipe : Pipe.t) :
  wf w -> pipes w !! choose_pipe_ind w = Some pipe ->
  exists w1 add_pipe rem w',
    tick_front w = Ok (w1, add_pipe, rem) /\
    tick_back h (w1, add_pipe, rem) = Ok w' /\
    forall g f, g ∈ ge w -> g ∉ ge w1 -> fitness w !! g = Some f ->
      fitness w' !! g = Some (f + 0.1 - 1)%float /\ g ∉ ge w'.
Proof.
  intros Hwf Hpipe.
  destruct (round_exact 0 h w pipe Hwf Hpipe)
    as (w1 & add & rem & w' & Ef & Eb & _ & _ & Hg' & _ & _ & _ & _ & _
        & Hgone & _).
  exists w1, add, rem, w'. split; [exact Ef|]. split; [exact Eb|].
  intros g f Hg Hng Hf. split; [exact (Hgone g f Hg Hng Hf)|].
  intros Hin. apply Hng. eapply elem_of_sublist; eauto.
Qed.

(** X12. Over any number of rounds the population only loses agents,
    and the fitness of a genome that is not in the population is never
    touched again: what an agent had when it was taken out is what the
    caller reads at the end. *)
Theorem left_agents_stay_out (inputs : list TickInput) (w w' : World) :
  wf w -> rounds inputs w = Ok w' ->
  ge w' `sublist_of` ge w /\
  forall g, g ∉ ge w -> fitness w' !! g = fitness w !! g.
Proof.
  intros Hwf E.
  destruct (rounds_frame inputs w w' Hwf E) as (_ & Hg & Hf & _).
  auto.
Qed.

(** X13. The score never goes down, and it goes up by at most 1 in a
    round: after [n] rounds it has gained between 0 and [n]. *)
Theorem score_bounded_by_rounds (inputs : list TickInput) (w w' : World) :
  wf w -> rounds inputs w = Ok w' ->
  score w <= score w' <= score w + Z.of_nat (length inputs).
Proof.
  intros Hwf E.
  destruct (rounds_frame inputs w w' Hwf E) as (_ & _ & _ & Hs).
  exact Hs.
Qed.

End genomes_over_rounds.

Lemma collided_agent_fitness_witness :
  wf (crowd 225) /\
  match tick_front (H := rect_assets) (crowd 225) with
  | Ok (w1, add_pipe, _) => add_pipe = true /\ 0%nat ∉ ge w1
  | _ => False
  end /\
  exists w1 add_pipe rem w',
    tick_front (H := rect_assets) (crowd 225) = Ok (w1, add_pipe, rem) /\
    tick_back (H := rect_assets) 50 (w1, add_pipe, rem) = Ok w' /\
    fitness w' !! 0%nat = Some (0 + 0.1 - 1)%float.
Proof.
  pose proof (wf_crowd 225) as Hwf. split; [exact Hwf|].
  assert (Hc : match tick_front (H := rect_assets) (crowd 225) with
               | Ok (w1, add_pipe, _) => add_pipe = true /\ 0%nat ∉ ge w1
               | _ => False
               end).
  { vm_compute. split; [reflexivity|].
    intros Hin. apply list_elem_of_singleton in Hin. discriminate. }
  split; [exact Hc|].
  destruct (collided_agent_fitness (H := rect_assets) 50 (crowd 225)
              (Pipe.mk 225 50 (50 - 640) 250 false) Hwf eq_refl)
    as (w1 & add & rem & w' & Ef & Eb & Hfit).
  exists w1, add, rem, w'. split; [exact Ef|]. split; [exact Eb|].
  rewrite Ef in Hc. destruct Hc as [_ Hn].
  apply (Hfit 0%nat 0%float); [|exact Hn|reflexivity].
  cbn. apply elem_of_cons. left. reflexivity.
Defined.

Lemma left_agents_stay_out_witness :
  wf (crowd 225) /\
  exists w', rounds (H := rect_assets) [calm; calm] (crowd 225) = Ok w' /\
    ge w' `sublist_of` ge (crowd 225) /\
    fitness w' !! 7%nat = None.
Proof.
  pose proof (wf_crowd 225) as Hwf. split; [exact Hwf|].
  destruct (rounds (H := rect_assets) [calm; calm] (crowd 225))
    as [w'| |] eqn:E; [|vm_compute in E; discriminate E
                       |vm_compute in E; discriminate E].
  exists w'. split; [reflexivity|].
  destruct (left_agents_stay_out (H := rect_assets) [calm; calm]
              (crowd 225) w' Hwf E) as [Hg Hf].
  split; [exact Hg|]. rewrite Hf; [reflexivity|].
  cbn. intros Hin.
  repeat (apply elem_of_cons in Hin as [Hin|Hin]; [discriminate|]).
  apply elem_of_nil in Hin. exact Hin.
Defined.

Lemma score_bounded_by_rounds_witness :
  wf (crowd 225) /\
  exists w', rounds (H := rect_assets) [calm; calm] (crowd 225) = Ok w' /\
    score (crowd 225) <= score w' <= score (crowd 225) + 2.
Proof.
  pose proof (wf_crowd 225) as Hwf. split; [exact Hwf|].
  destruct (rounds (H := rect_assets) [calm; calm] (crowd 225))
    as [w'| |] eqn:E; [|vm_compute in E; discriminate E
                       |vm_compute in E; discriminate E].
  exists w'. split; [reflexivity|].
  exact (score_bounded_by_rounds (H := rect_assets) [calm; calm]
           (crowd 225) w' Hwf E).
Defined.

(** ** An episode never fails *)

Section episode_safety.
Context `{Assets}.

Lemma choose_pipe_ind_valid (w : World) :
  pipes w <> [] -> exists pipe, pipes w !! choose_pipe_ind w = Some pipe.
Proof.
  intros Hp. unfold choose_pipe_ind.
  destruct (pipes w) as [|p0 [|p1 ps]]; [contradiction| |].
  - exists p0. destruct (birds w); reflexivity.
  - destruct (birds w) as [|b0 bs]; [exists p0; reflexivity|].
    destruct (_ <? _); [exists p1|exists p0]; reflexivity.
Qed.

Lemma last_of_lookup {X} (l : list X) (n : nat) (a : X) :
  l !! n = Some a -> length l = S n -> l = take n l ++ [a].
Proof.
  intros Hl Hn. rewrite <- (take_S_r l n a Hl), take_ge by lia.
  reflexivity.
Qed.

Lemma episode_inv_tick (inp : TickInput) (w : World) :
  0 <= pipe_img_width -> episode_inv w ->
  existsb is_quit (events inp) = false ->
  exists r, tick inp w = Ok r /\
    match r with
    | Continue w' => episode_inv w'
    | Break w' => w' = w /\ birds w = []
    end.
Proof.
  intros HW (Hwf & Hx & Hahead) Hq.
  destruct (birds w) as [|b bs] eqn:Hb.
  { exists (Break w). unfold tick. rewrite Hq, Hb. auto. }
  destruct Hahead as [Hb'|(ps & p & Hps & Hpp & Hpx)];
    [rewrite Hb in Hb'; discriminate|].
  destruct (choose_pipe_ind_valid w) as [pipe Hpipe].
  { rewrite Hps. destruct ps; discriminate. }
  destruct (round_exact 230 (drawn_height inp) w pipe Hwf Hpipe)
    as (w1 & add & rem & w' & Ef & Eb & Hwf' & _ & _ & Hpk & Hlen & Hp'
        & _ & Hex & _ & _ & _ & Hempty).
  assert (Et : tick inp w = Ok (Continue w')).
  { unfold tick. rewrite Hq, Hb, Ef. cbn [mbind res_bind].
    rewrite Eb. reflexivity. }
  exists (Continue w'). split; [exact Et|].
  split; [exact Hwf'|]. split.
  { pose proof (tick_keeps_wf 230 inp w _ Hwf Hx Et) as [_ Hx']. exact Hx'. }
  destruct (decide (birds w1 = [])) as [Hb1|Hb1]; [left; auto|right].
  rewrite Hp'. destruct add.
  - eexists. exists (Pipe.init 600 (drawn_height inp)).
    split; [reflexivity|]. cbn. split; [reflexivity|lia].
  - rewrite app_nil_r.
    assert (Hlast : pipes w !! length ps = Some p).
    { rewrite Hps. apply list_lookup_middle. reflexivity. }
    destruct (Hpk _ p Hlast) as (p' & Hl & _ & Hf).
    specialize (Hf Hx Hb1). specialize (Hex Hx Hb1).
    assert (Hnf : fire0 230 p = false).
    { symmetry in Hex. rewrite <- not_true_iff_false in Hex.
      rewrite <- not_true_iff_false. intros Hfp. apply Hex.
      apply existsb_exists. exists p. split; [|exact Hfp].
      rewrite Hps. apply in_or_app. right. left. reflexivity. }
    rewrite Hnf in Hf. subst p'.
    unfold fire0 in Hnf. rewrite Hpp in Hnf. cbn in Hnf.
    apply Z.ltb_ge in Hnf.
    rewrite (last_of_lookup (pipes w1) (length ps) (Pipe.move p) Hl).
    2:{ rewrite Hlen, Hps, length_app. cbn. lia. }
    rewrite List.filter_app. cbn [List.filter].
    assert (Hon : was_on_screen (Pipe.move p) = true).
    { unfold was_on_screen, Pipe.move, Pipe.VELOCITY. cbn.
      apply negb_true_iff, Z.ltb_ge. lia. }
    rewrite Hon. eexists. exists (Pipe.move p).
    split; [reflexivity|]. cbn. split; [exact Hpp|].
    unfold Pipe.VELOCITY. lia.
Qed.

Lemma main_loop_safe (inputs : list TickInput) (w : World) :
  0 <= pipe_img_width -> episode_inv w ->
  forallb (fun inp => negb (existsb is_quit (events inp))) inputs = true ->
  main_loop inputs w = OutOfFuel \/
  exists w', main_loop inputs w = Ok w' /\ birds w' = [].
Proof.
  intros HW. revert w.
  induction inputs as [|inp inputs IH]; intros w Hinv Hq.
  - left. reflexivity.
  - cbn [forallb] in Hq. apply andb_true_iff in Hq as [Hq1 Hq2].
    apply negb_true_iff in Hq1.
    destruct (episode_inv_tick inp w HW Hinv Hq1) as (r & Er & Hr).
    cbn [main_loop]. rewrite Er. cbn [mbind res_bind].
    destruct r as [w'|w'].
    + apply IH; assumption.
    + right. exists w'. destruct Hr as [-> Hb]. auto.
Qed.

(** X14. An episode on distinct genomes in which no quit event arrives
    never raises: at the top of every round with agents left there is a
    pipe ahead that is not yet passed, so every index into [pipes],
    [nets] and [ge] and every read of a fitness succeeds. The episode
    either returns, with an empty population, or is still running after
    the given rounds. (The width of the pipe image is not negative.) *)
Theorem episode_never_raises (create : ref -> Net)
  (genomes : list (Z * ref)) (store : gmap ref float) (h0 : Z)
  (inputs : list TickInput) :
  0 <= pipe_img_width -> NoDup genomes.*2 ->
  forallb (fun inp => negb (existsb is_quit (events inp))) inputs = true ->
  eval_genomes create genomes store h0 inputs = OutOfFuel \/
  exists w, eval_genomes create genomes store h0 inputs = Ok w /\
            birds w = [].
Proof.
  intros HW Hnd Hq. unfold eval_genomes.
  apply main_loop_safe; [exact HW| |exact Hq].
  split; [apply setup_wf, Hnd|]. split; [apply setup_same_x|].
  right. exists [], (Pipe.init 600 h0). unfold setup. cbn.
  split; [reflexivity|]. split; [reflexivity|lia].
Qed.

End episode_safety.

Lemma episode_never_raises_witness :
  0 <= pipe_img_width (Assets := rect_assets) /\
  NoDup [0; 1]%nat /\
  exists w, eval_genomes (H := rect_assets) (fun _ => hover)
              [(1, 0%nat); (2, 1%nat)] ∅ 50 (replicate 64 calm) = Ok w /\
            birds w = [].
Proof.
  assert (HW : 0 <= pipe_img_width (Assets := rect_assets))
    by (vm_compute; discriminate).
  assert (Hnd : NoDup [0; 1]%nat)
    by (apply (bool_decide_unpack _); reflexivity).
  split; [exact HW|]. split; [exact Hnd|].
  destruct (episode_never_raises (H := rect_assets) (fun _ => hover)
              [(1, 0%nat); (2, 1%nat)] ∅ 50 (replicate 64 calm)
              HW Hnd eq_refl) as [E|Hok].
  - vm_compute in E. discriminate E.
  - exact Hok.
Defined.

(** ** Loops that yield every element *)

Section visits_facts.
Context {St A : Type} (xs : St -> list A) (body : nat -> A -> St -> res St).

(** A loop whose body, under an invariant, never raises and never
    changes the list beyond the position it is at, yields every element
    from its position on, once each and in order. *)
Lemma visits_all (I : nat -> St -> Prop) :
  (forall i a s, I i s -> xs s !! i = Some a ->
     exists s', body i a s = Ok s' /\ I (S i) s' /\
                drop (S i) (xs s') = drop (S i) (xs s)) ->
  forall fuel i s, I i s -> (length (xs s) - i < fuel)%nat ->
    visits xs body fuel i s = drop i (xs s).
Proof.
  intros Hbody fuel. induction fuel as [|fuel IH]; intros i s Hi Hlen.
  - lia.
  - cbn [visits]. destruct (xs s !! i) as [a|] eqn:Hl.
    + destruct (Hbody i a s Hi Hl) as (s' & -> & Hi' & Hd).
      rewrite (drop_S _ _ _ Hl), <- Hd. f_equal.
      apply IH; [exact Hi'|].
      apply lookup_lt_Some in Hl.
      pose proof (f_equal length Hd) as Hdl. rewrite !length_drop in Hdl.
      lia.
    + apply lookup_ge_None in Hl. rewrite drop_ge by lia. reflexivity.
Qed.

End visits_facts.

Section visits_in_a_round.
Context `{Assets}.

Lemma think_body_birds (pipe_ind i : nat) (bird : Bird.t) (s s' : World) :
  think_body pipe_ind i bird s = Ok s' ->
  exists b', birds s' = <[i := b']> (birds s).
Proof.
  unfold think_body. intros E.
  inv_bind E as s1 E1. inv_bind E as net En. inv_bind E as pipe Ep.
  injection E as <-. cbn [birds set_birds].
  unfold add_fitness, aug_fitness in E1. inv_bind E1 as g Eg. inv_bind E1 as f Ef.
  injection E1 as <-. eexists. reflexivity.
Qed.

(** X15. The loop that moves and steers the agents (lines 320-328)
    yields every agent of the population exactly once, in the order of
    the list, and leaves the lists of networks and genomes and the
    length of the population as they are. *)
Theorem think_visits_all (pipe_ind : nat) (pipe : Pipe.t) (w : World) :
  wf w -> pipes w !! pipe_ind = Some pipe ->
  visits birds (think_body pipe_ind) (S (length (birds w))) 0 w = birds w /\
  exists w', think pipe_ind w = Ok w' /\
    length (birds w') = length (birds w) /\
    nets w' = nets w /\ ge w' = ge w.
Proof.
  intros Hwf Hpipe. split.
  - rewrite (visits_all birds (think_body pipe_ind) (think_inv pipe w)).
    + apply drop_0.
    + intros i a s Hs Ha.
      destruct (think_body_spec pipe_ind pipe w i a s Hpipe Hs Ha)
        as (s' & E & Hs' & _).
      exists s'. split; [exact E|]. split; [exact Hs'|].
      destruct (think_body_birds _ _ _ _ _ E) as [b' ->].
      apply drop_insert_lt. lia.
    + repeat split; try apply Hwf; auto. apply bumped_0.
    + lia.
  - destruct (think_spec pipe_ind pipe w Hwf Hpipe)
      as (w' & E & _ & Hn & Hg & _ & _ & _ & Hl & _).
    exists w'. auto.
Qed.

Lemma collide_set_passed (v : bool) (p : Pipe.t) (b : Bird.t) :
  Pipe.collide (Pipe.set_passed v p) b = Pipe.collide p b.
Proof. reflexivity. Qed.

(** X16. When no agent of the population overlaps the pipe, the scan of
    the population for that pipe yields every agent exactly once, in
    order, and changes neither the population nor any fitness. *)
Theorem scan_without_collision (w : World) (pipe : Pipe.t) (add : bool) :
  (forall b, b ∈ birds w -> Pipe.collide pipe b = false) ->
  visits (fun s : ScanState => birds s.1.1) scan_body
         (S (length (birds w))) 0 (w, pipe, add) = birds w /\
  exists pipe' add', scan_birds (w, pipe, add) = Ok (w, pipe', add').
Proof.
  intros Hfree.
  set (I := fun (_ : nat) (s : ScanState) =>
              s.1.1 = w /\
              (s.1.2 = pipe \/ s.1.2 = Pipe.set_passed true pipe)).
  assert (Hbody : forall i a (s : ScanState), I i s ->
            birds s.1.1 !! i = Some a ->
            exists s', scan_body i a s = Ok s' /\ I (S i) s' /\
                       s'.1.1 = s.1.1).
  { intros i a [[ws p] ad] [Hw Hp] Ha. cbn [fst snd] in *. subst ws.
    assert (Hc : Pipe.collide p a = false).
    { destruct Hp as [-> | ->]; [|rewrite collide_set_passed];
        apply Hfree; eapply list_elem_of_lookup_2; eauto. }
    unfold scan_body. rewrite Hc. cbn [mbind res_bind].
    destruct (negb (Pipe.passed p) && (Pipe.x p <? Bird.x a)).
    - eexists. split; [reflexivity|]. cbn [fst snd].
      split; [|reflexivity]. split; [reflexivity|]. right.
      destruct Hp as [-> | ->]; reflexivity.
    - eexists. split; [reflexivity|]. cbn [fst snd].
      split; [|reflexivity]. split; [reflexivity|exact Hp]. }
  split.
  - rewrite (visits_all (fun s : ScanState => birds s.1.1) scan_body I).
    + apply drop_0.
    + intros i a s Hs Ha.
      destruct (Hbody i a s Hs Ha) as (s' & E & Hs' & Hw).
      exists s'. split; [exact E|]. split; [exact Hs'|].
      cbn beta. rewrite Hw. reflexivity.
    + split; [reflexivity|left; reflexivity].
    + cbn [fst]. lia.
  - unfold scan_birds.
    destruct (for_in_spec (fun s : ScanState => birds s.1.1) scan_body I
                (w, pipe, add))
      as ([[w' pipe'] add'] & j & E & [Hw _] & _).
    + intros i a s Hs Ha.
      destruct (Hbody i a s Hs Ha) as (s' & E & Hs' & Hw).
      exists s'. split; [exact E|]. split; [exact Hs'|].
      rewrite Hw. lia.
    + split; [reflexivity|left; reflexivity].
    + cbn [fst] in Hw. subst w'. exists pipe', add'. exact E.
Qed.

End visits_in_a_round.

Lemma think_visits_all_witness :
  wf (crowd 295) /\
  visits birds (think_body 0) 4 0 (crowd 295) = birds (crowd 295).
Proof.
  pose proof (wf_crowd 295) as Hwf. split; [exact Hwf|].
  exact (proj1 (think_visits_all 0 (Pipe.mk 295 50 (50 - 640) 250 false)
                  (crowd 295) Hwf eq_refl)).
Defined.

Lemma scan_without_collision_witness :
  (forall b, b ∈ birds (crowd 600) ->
     Pipe.collide (H := rect_assets)
       (Pipe.mk 600 50 (50 - 640) 250 false) b = false) /\
  exists pipe' add',
    scan_birds (H := rect_assets)
      (crowd 600, Pipe.mk 600 50 (50 - 640) 250 false, false)
    = Ok (crowd 600, pipe', add').
Proof.
  assert (Hfree : forall b, b ∈ birds (crowd 600) ->
            Pipe.collide (H := rect_assets)
              (Pipe.mk 600 50 (50 - 640) 250 false) b = false).
  { intros b Hb. cbn in Hb.
    repeat (apply elem_of_cons in Hb as [->|Hb]); try reflexivity.
    apply elem_of_nil in Hb. contradiction. }
  split; [exact Hfree|].
  exact (proj2 (scan_without_collision (H := rect_assets) (crowd 600)
                  (Pipe.mk 600 50 (50 - 640) 250 false) false Hfree)).
Defined.

(** ** A scan in which every agent is to be removed *)

Lemma half_inv_start {X} (A : list X) : half_inv A 0 A.
Proof. exists [], A. cbn. auto. Qed.

Lemma half_inv_step {X} (A : list X) (i : nat) (l : list X) (a : X) :
  half_inv A i l -> l !! i = Some a -> half_inv A (S i) (delete i l).
Proof.
  intros (P & Q & -> & Ho & Hlen) Hl.
  destruct Hlen as [Hlen|[-> Hlen]].
  - subst i. rewrite lookup_app_r in Hl by lia.
    rewrite Nat.sub_diag in Hl. destruct Q as [|a' Q']; [discriminate|].
    rewrite delete_middle. destruct Q' as [|b Q''].
    + exists P, []. cbn in Ho. rewrite app_nil_r.
      split; [reflexivity|]. split; [exact Ho|]. right. split; [auto|lia].
    + exists (P ++ [b]), Q''. rewrite <- !app_assoc. cbn.
      split; [reflexivity|]. split; [exact Ho|].
      left. rewrite length_app. cbn. lia.
  - rewrite app_nil_r in Hl. apply lookup_lt_Some in Hl. lia.
Qed.

Lemma half_inv_end {X} (A : list X) (j : nat) (l : list X) :
  half_inv A j l -> l !! j = None -> l = odds A.
Proof.
  intros (P & Q & -> & Ho & Hlen) Hl.
  destruct Hlen as [Hlen|[-> _]].
  - subst j. rewrite lookup_app_r in Hl by lia.
    rewrite Nat.sub_diag in Hl. destruct Q; [|discriminate].
    exact Ho.
  - exact Ho.
Qed.

Lemma odds_fmap {X Y} (f : X -> Y) (l : list X) :
  odds (f <$> l) = f <$> odds l.
Proof.
  assert (Hgen : forall n l, (length l <= n)%nat ->
                   odds (f <$> l) = f <$> odds l).
  { clear l. induction n as [|n IH]; intros [|a [|b r]] Hn; cbn in *;
      try reflexivity; try lia.
    f_equal. apply IH. lia. }
  apply (Hgen (length l)). lia.
Qed.

Lemma agents_fst (w : World) :
  aligned w -> (fun a : Bird.t * Net * ref => a.1.1) <$> agents w = birds w.
Proof.
  intros [Hn Hg]. unfold agents.
  trans (fst <$> (fst <$> zip (zip (birds w) (nets w)) (ge w))).
  { rewrite <- list_fmap_compose. reflexivity. }
  rewrite fst_zip by (rewrite length_zip_with; lia).
  apply fst_zip. lia.
Qed.

Lemma agents_snd (w : World) :
  aligned w -> snd <$> agents w = ge w.
Proof.
  intros [Hn Hg]. unfold agents.
  apply snd_zip. rewrite length_zip_with. lia.
Qed.

Section half_scan.
Context `{Assets}.

(** X17. When every agent of the population overlaps the pipe, the scan
    removes the agents at the first, third, fifth, ... place and leaves
    those at the second, fourth, sixth, ... place in the population,
    with their fitness unchanged: every removal makes the iterator pass
    over the next agent. *)
Theorem scan_removes_every_other (w : World) (pipe : Pipe.t) (add : bool) :
  wf w -> (forall b, b ∈ birds w -> Pipe.collide pipe b = true) ->
  exists w' pipe' add',
    scan_birds (w, pipe, add) = Ok (w', pipe', add') /\
    birds w' = odds (birds w) /\ ge w' = odds (ge w) /\
    agents w' = odds (agents w) /\
    (forall g, g ∈ ge w' -> fitness w' !! g = fitness w !! g) /\
    (forall g f, g ∈ ge w -> g ∉ ge w' -> fitness w !! g = Some f ->
       fitness w' !! g = Some (f - 1)%float).
Proof.
  intros Hwf Hall.
  destruct (scan_birds_spec w w pipe add (scan_rel_refl w Hwf))
    as (w' & pipe' & add' & E & Hrel & _).
  exists w', pipe', add'. split; [exact E|].
  assert (Hag : agents w' = odds (agents w)).
  { set (I := fun (i : nat) (s : ScanState) =>
                wf s.1.1 /\ birds s.1.1 `sublist_of` birds w /\
                (s.1.2 = pipe \/ s.1.2 = Pipe.set_passed true pipe) /\
                half_inv (agents w) i (agents s.1.1)).
    unfold scan_birds in E.
    destruct (for_in_spec (fun s : ScanState => birds s.1.1) scan_body I
                (w, pipe, add))
      as ([[w2 pipe2] add2] & j & E2 & (Hwf2 & _ & _ & Hh) & Hnone).
    - intros i a [[ws p] ad] (Hws & Hsub & Hp & Hh) Ha.
      cbn [fst snd] in *.
      pose proof (lookup_lt_Some _ _ _ Ha) as Hi.
      assert (Hin : a ∈ birds w).
      { eapply elem_of_sublist; [|exact Hsub].
        eapply list_elem_of_lookup_2; eauto. }
      assert (Hc : Pipe.collide p a = true).
      { destruct Hp as [-> | ->]; [|rewrite collide_set_passed];
          apply Hall, Hin. }
      destruct (agents_lookup ws i a) as (net & g & _ & Hg & Hai);
        [apply Hws|exact Ha|].
      destruct (sub_fitness_spec i 1%float ws g Hws Hg) as (f & Hf & Eadd).
      unfold scan_body. rewrite Hc, Eadd. cbn [mbind res_bind].
      rewrite pop_agent_spec; [|apply wf_set_fitness_insert, Hws|exact Hi].
      cbn [mbind res_bind].
      set (w3 := popped i (set_fitness (<[g:=(f - 1)%float]> (fitness ws)) ws)).
      assert (H3 : wf w3 /\ birds w3 `sublist_of` birds w /\
                   half_inv (agents w) (S i) (agents w3) /\
                   (length (birds w3) <= length (birds ws))%nat).
      { split; [apply wf_popped; [apply wf_set_fitness_insert, Hws|exact Hi]|].
        split; [etrans; [apply sublist_delete|exact Hsub]|].
        split.
        - unfold w3. rewrite agents_popped.
          apply (half_inv_step _ _ _ (a, net, g)); assumption.
        - cbn. rewrite length_delete; [lia|]. eauto. }
      destruct H3 as (Hw3 & Hs3 & Hh3 & Hl3).
      destruct (negb (Pipe.passed p) && (Pipe.x p <? Bird.x a));
        (eexists; split; [reflexivity|]); cbn [fst snd];
        (split; [|exact Hl3]); (split; [exact Hw3|]);
        (split; [exact Hs3|]); (split; [|exact Hh3]).
      + right. destruct Hp as [-> | ->]; reflexivity.
      + exact Hp.
    - cbn [fst snd]. split; [exact Hwf|]. split; [reflexivity|].
      split; [left; reflexivity|apply half_inv_start].
    - rewrite E in E2. injection E2 as <- <- <-. cbn [fst snd] in *.
      apply (half_inv_end _ j); [exact Hh|].
      apply lookup_ge_None. apply lookup_ge_None in Hnone.
      unfold agents. rewrite !length_zip_with.
      destruct Hwf2 as ([Hn Hg] & _). lia. }
  destruct Hrel as (Hwf' & _ & _ & _ & _ & Hkeep & _ & Hgone).
  split.
  { rewrite <- (agents_fst w') by apply Hwf'.
    rewrite <- (agents_fst w) by apply Hwf.
    rewrite Hag, odds_fmap. reflexivity. }
  split.
  { rewrite <- (agents_snd w') by apply Hwf'.
    rewrite <- (agents_snd w) by apply Hwf.
    rewrite Hag, odds_fmap. reflexivity. }
  split; [exact Hag|]. split; [exact Hkeep|].
  intros g f Hg Hng Hf.
  destruct (Hgone g Hg Hng) as (f' & Hf' & ->). congruence.
Qed.

End half_scan.

Lemma scan_removes_every_other_witness :
  wf (crowd 295) /\
  (forall b, b ∈ birds (crowd 295) ->
     Pipe.collide (H := rect_assets)
       (Pipe.mk 295 50 (50 - 640) 250 false) b = true) /\
  exists w' pipe' add',
    scan_birds (H := rect_assets)
      (crowd 295, Pipe.mk 295 50 (50 - 640) 250 false, false)
    = Ok (w', pipe', add') /\
    ge w' = [1%nat].
Proof.
  pose proof (wf_crowd 295) as Hwf.
  assert (Hall : forall b, b ∈ birds (crowd 295) ->
            Pipe.collide (H := rect_assets)
              (Pipe.mk 295 50 (50 - 640) 250 false) b = true).
  { intros b Hb. cbn in Hb.
    repeat (apply elem_of_cons in Hb as [->|Hb]); try reflexivity.
    apply elem_of_nil in Hb. contradiction. }
  split; [exact Hwf|]. split; [exact Hall|].
  destruct (scan_removes_every_other (H := rect_assets) (crowd 295)
              (Pipe.mk 295 50 (50 - 640) 250 false) false Hwf Hall)
    as (w' & pipe' & add' & E & _ & Hg & _).
  exists w', pipe', add'. split; [exact E|exact Hg].
Defined.

Section half_oob.
Context `{Assets}.

(** X18. When every agent of the population is out of bounds, the scan
    of lines 365-370 removes the agents at the first, third, fifth, ...
    place only: those at the second, fourth, sixth, ... place stay in
    the population for another round. No fitness changes. *)
Theorem oob_removes_every_other (w : World) :
  wf w -> (forall b, b ∈ birds w -> out_of_bounds b = true) ->
  exists w', oob_scan w = Ok w' /\
    birds w' = odds (birds w) /\ ge w' = odds (ge w) /\
    agents w' = odds (agents w) /\ fitness w' = fitness w.
Proof.
  intros Hwf Hall.
  set (I := fun (i : nat) (s : World) =>
              wf s /\ birds s `sublist_of` birds w /\
              fitness s = fitness w /\
              half_inv (agents w) i (agents s)).
  unfold oob_scan.
  destruct (for_in_spec birds oob_body I w)
    as (w' & j & E & (Hwf' & _ & Hf & Hh) & Hnone).
  - intros i a s (Hs & Hsub & Hfs & Hh) Ha.
    pose proof (lookup_lt_Some _ _ _ Ha) as Hi.
    assert (Ho : out_of_bounds a = true).
    { apply Hall. eapply elem_of_sublist; [|exact Hsub].
      eapply list_elem_of_lookup_2; eauto. }
    destruct (agents_lookup s i a) as (net & g & _ & _ & Hai);
      [apply Hs|exact Ha|].
    unfold oob_body. fold (out_of_bounds a). rewrite Ho.
    rewrite pop_agent_spec by (auto; apply Hs).
    eexists. split; [reflexivity|]. split.
    + split; [apply wf_popped; auto|].
      split; [etrans; [apply sublist_delete|exact Hsub]|].
      split; [exact Hfs|].
      rewrite agents_popped.
      apply (half_inv_step _ _ _ (a, net, g)); assumption.
    + cbn. rewrite length_delete; [lia|]. eauto.
  - split; [exact Hwf|]. split; [reflexivity|].
    split; [reflexivity|apply half_inv_start].
  - exists w'. split; [exact E|].
    assert (Hag : agents w' = odds (agents w)).
    { apply (half_inv_end _ j); [exact Hh|].
      apply lookup_ge_None. apply lookup_ge_None in Hnone.
      unfold agents. rewrite !length_zip_with.
      destruct Hwf' as ([Hn Hg] & _). lia. }
    split.
    { rewrite <- (agents_fst w') by apply Hwf'.
      rewrite <- (agents_fst w) by apply Hwf.
      rewrite Hag, odds_fmap. reflexivity. }
    split.
    { rewrite <- (agents_snd w') by apply Hwf'.
      rewrite <- (agents_snd w) by apply Hwf.
      rewrite Hag, odds_fmap. reflexivity. }
    split; [exact Hag|exact Hf].
Qed.

End half_oob.

Lemma oob_removes_every_other_witness :
  wf sunk /\
  (forall b, b ∈ birds sunk -> out_of_bounds (H := rect_assets) b = true) /\
  exists w', oob_scan (H := rect_assets) sunk = Ok w' /\ ge w' = [1%nat].
Proof.
  assert (Hall : forall b, b ∈ birds sunk ->
                   out_of_bounds (H := rect_assets) b = true).
  { intros b Hb. cbn in Hb.
    repeat (apply elem_of_cons in Hb as [->|Hb]); try reflexivity.
    apply elem_of_nil in Hb. contradiction. }
  split; [exact wf_sunk|]. split; [exact Hall|].
  destruct (oob_removes_every_other (H := rect_assets) sunk wf_sunk Hall)
    as (w' & E & _ & Hg & _).
  exists w'. split; [exact E|exact Hg].
Defined.

(** ** The pipes of an episode *)

Section pipes_of_an_episode.
Context `{Assets}.

Lemma pipe_shaped_mono (hs hs' : list Z) (p : Pipe.t) :
  (forall h, h ∈ hs -> h ∈ hs') -> pipe_shaped hs p -> pipe_shaped hs' p.
Proof.
  intros Hsub (Hb & Ht & Hh & Hx). repeat split; auto; apply Hx.
Qed.

Lemma tick_pipes_shaped (hs : list Z) (inp : TickInput) (w : World)
  (r : flow) :
  wf w -> (forall p, p ∈ pipes w -> pipe_shaped hs p) ->
  tick inp w = Ok r ->
  match r with
  | Continue w' | Break w' =>
      forall p, p ∈ pipes w' -> pipe_shaped (hs ++ [drawn_height inp]) p
  end.
Proof.
  intros Hwf Hsh E. apply tick_inv in E.
  assert (Hold : forall p, pipe_shaped hs p ->
                           pipe_shaped (hs ++ [drawn_height inp]) p).
  { intros p. apply pipe_shaped_mono. intros h Hh.
    apply elem_of_app. left. exact Hh. }
  destruct r as [w'|w'].
  - destruct E as (pipe & w1 & add & rem & Hp & Ef & Eb).
    destruct (round_exact 0 (drawn_height inp) w pipe Hwf Hp)
      as (w1' & add' & rem' & w'' & Ef' & Eb' & _ & _ & _ & Hpk & Hlen
          & Hps & _).
    rewrite Ef in Ef'. injection Ef' as <- <- <-.
    rewrite Eb in Eb'. injection Eb' as <-.
    intros q Hq. rewrite Hps in Hq. apply elem_of_app in Hq as [Hq|Hq].
    + apply list_elem_of_In, List.filter_In in Hq as [Hq _].
      apply list_elem_of_In, list_elem_of_lookup in Hq as [k Hk].
      destruct (lookup_lt_is_Some_2 (pipes w) k) as [p Hkp];
        [rewrite <- Hlen; eapply lookup_lt_Some; eauto|].
      destruct (Hpk k p Hkp) as (p' & Hl & Hor & _).
      assert (q = Pipe.move p') as -> by congruence.
      destruct (Hsh p (list_elem_of_lookup_2 _ _ _ Hkp))
        as (Hb & Ht & Hh & Hx & Hm).
      apply Hold.
      destruct Hor as [->|(_ & ->)]; unfold pipe_shaped, Pipe.move,
        Pipe.VELOCITY; cbn [Pipe.x Pipe.height Pipe.top Pipe.bottom
                            Pipe.set_passed];
        (repeat split; auto; try lia);
        (replace (600 - (Pipe.x p - 5)) with (600 - Pipe.x p + 1 * 5) by lia;
         rewrite Z_mod_plus_full; exact Hm).
    + destruct add; [|apply elem_of_nil in Hq; contradiction].
      apply list_elem_of_singleton in Hq. subst q.
      unfold pipe_shaped, Pipe.init, Pipe.set_height, Pipe.GAP. cbn.
      repeat split; auto; try lia.
      apply elem_of_app. right. apply list_elem_of_singleton. reflexivity.
  - destruct E as [-> _]. intros p Hp. apply Hold, Hsh, Hp.
Qed.

Lemma rounds_pipes_shaped (inputs : list TickInput) (hs : list Z)
  (w w' : World) :
  wf w -> (forall p, p ∈ pipes w -> pipe_shaped hs p) ->
  rounds inputs w = Ok w' ->
  forall p, p ∈ pipes w' ->
            pipe_shaped (hs ++ (drawn_height <$> inputs)) p.
Proof.
  revert hs w. induction inputs as [|inp inputs IH]; intros hs w Hwf Hsh E.
  - injection E as <-. cbn. rewrite app_nil_r. exact Hsh.
  - cbn [rounds] in E. inv_bind E as r Er.
    pose proof (tick_pipes_shaped hs inp w r Hwf Hsh Er) as Hr.
    pose proof (tick_frame inp w r Hwf Er) as Hf.
    cbn [fmap list_fmap].
    replace (hs ++ drawn_height inp :: (drawn_height <$> inputs))
      with ((hs ++ [drawn_height inp]) ++ (drawn_height <$> inputs))
      by (rewrite <- app_assoc; reflexivity).
    destruct r as [w1|w1].
    + apply (IH _ w1); [apply Hf|exact Hr|exact E].
    + injection E as <-. intros p Hp.
      eapply pipe_shaped_mono; [|apply Hr, Hp].
      intros h Hh. apply elem_of_app. left. exact Hh.
Qed.

(** X19. Every pipe of every world an episode on distinct genomes goes
    through has a gap of exactly 200 between its height and its bottom,
    its top at the height minus the height of the pipe image, a height
    that is one of the values drawn (the first one or that of a round
    played), and an [x] that is 600 minus a multiple of 5. *)
Theorem episode_pipes_shaped (create : ref -> Net)
  (genomes : list (Z * ref)) (store : gmap ref float) (h0 : Z)
  (inputs : list TickInput) (w : World) :
  NoDup genomes.*2 ->
  rounds inputs (setup create genomes store h0) = Ok w ->
  forall p, p ∈ pipes w ->
    Pipe.bottom p = Pipe.height p + 200 /\
    Pipe.top p = Pipe.height p - pipe_img_height /\
    Pipe.height p ∈ h0 :: (drawn_height <$> inputs) /\
    Pipe.x p <= 600 /\ (600 - Pipe.x p) mod 5 = 0.
Proof.
  intros Hnd E.
  apply (rounds_pipes_shaped inputs [h0] (setup create genomes store h0) w);
    [apply setup_wf, Hnd| |exact E].
  intros p Hp. unfold setup in Hp. cbn in Hp.
  apply list_elem_of_singleton in Hp. subst p.
  unfold pipe_shaped, Pipe.init, Pipe.set_height, Pipe.GAP. cbn.
  repeat split; auto; try lia.
  apply list_elem_of_singleton. reflexivity.
Qed.

End pipes_of_an_episode.

Lemma episode_pipes_shaped_witness :
  NoDup [0; 1]%nat /\
  exists w, rounds (H := rect_assets) (replicate 61 calm) (twins hover)
            = Ok w /\
    forall p, p ∈ pipes w -> Pipe.bottom p = Pipe.height p + 200.
Proof.
  assert (Hnd : NoDup [0; 1]%nat)
    by (apply (bool_decide_unpack _); reflexivity).
  split; [exact Hnd|].
  destruct (rounds (H := rect_assets) (replicate 61 calm) (twins hover))
    as [w| |] eqn:E; [|vm_compute in E; discriminate E
                      |vm_compute in E; discriminate E].
  exists w. split; [reflexivity|].
  intros p Hp.
  exact (proj1 (episode_pipes_shaped (H := rect_assets) (fun _ => hover)
                  [(1, 0%nat); (2, 1%nat)] ∅ 50 (replicate 61 calm) w
                  Hnd E p Hp)).
Defined.
